(** * Walle design system: table of contents manager, reading time helper
      and scaffolding CLI

    A shallow embedding of three parts of the repository:
    - [Helpers]: [calculateReadingTime] of [utils/helpers.ts];
    - [Toc]: the browser-side [TableOfContentsManager];
    - [Cli]: the bash script [lib/scripts/@walle/cli.sh].

    Conventions.  JavaScript strings are sequences of UTF-16 code units
    ([JS.jsstring]); pixel coordinates, scroll positions and timestamps
    are integers ([Z]); the only fractional arithmetic of the sources,
    the reading-time sum, is carried out over exact rationals ([Q]). *)

From Stdlib Require Import ZArith NArith QArith Qround Lia Bool.
From Stdlib Require Import DecimalString.
From stdpp Require Import base list strings gmap.

Local Open Scope Z_scope.

(** * JavaScript strings and the regular expressions of the sources *)

Module JS.

Definition jsstring := list N.

Definition of_ascii (s : string) : jsstring :=
  map Ascii.N_of_ascii (String.list_ascii_of_string s).

(** [WhiteSpace] and [LineTerminator] code points: what [\s], [trim] and
    [split(/\s+/)] treat as blank. *)
Definition is_line_terminator (c : N) : bool :=
  ((c =? 10) || (c =? 13) || (c =? 8232) || (c =? 8233))%N.

Definition is_whitespace (c : N) : bool :=
  ((c =? 9) || (c =? 10) || (c =? 11) || (c =? 12) || (c =? 13) || (c =? 32)
   || (c =? 160) || (c =? 5760) || ((8192 <=? c) && (c <=? 8202))
   || (c =? 8232) || (c =? 8233) || (c =? 8239) || (c =? 8287)
   || (c =? 12288) || (c =? 65279))%N.

Fixpoint drop_ws (s : jsstring) : jsstring :=
  match s with
  | c :: r => if is_whitespace c then drop_ws r else s
  | [] => []
  end.

(** [String.prototype.trim]. *)
Definition trim (s : jsstring) : jsstring :=
  rev (drop_ws (rev (drop_ws s))).

Fixpoint is_prefix (p s : jsstring) : bool :=
  match p, s with
  | [], _ => true
  | a :: p', b :: s' => (a =? b)%N && is_prefix p' s'
  | _ :: _, [] => false
  end.

(** ** Backtracking matchers

    A matcher takes the text at the current position and answers with the
    length of the match found there, if any.  Matchers are written in
    continuation-passing style, so that a star can give characters back
    (greedy) or take more of them (lazy) when what follows fails, which is
    the behaviour of the JavaScript engine. *)
Definition matcher := jsstring -> option nat.

Definition accept : matcher := fun _ => Some 0%nat.

Definition lit (l : jsstring) (k : matcher) : matcher := fun s =>
  if is_prefix l s
  then option_map (Nat.add (length l)) (k (skipn (length l) s))
  else None.

(** [cls*] followed by [k]: longest run first. *)
Fixpoint star_greedy (cls : N -> bool) (k : matcher) (s : jsstring)
  : option nat :=
  match s with
  | c :: r =>
      if cls c then
        match star_greedy cls k r with
        | Some n => Some (S n)
        | None => k s
        end
      else k s
  | [] => k []
  end.

(** [cls*?] followed by [k]: shortest run first. *)
Fixpoint star_lazy (cls : N -> bool) (k : matcher) (s : jsstring)
  : option nat :=
  match k s with
  | Some n => Some n
  | None =>
      match s with
      | c :: r => if cls c then option_map S (star_lazy cls k r) else None
      | [] => None
      end
  end.

(** Character classes. *)
Definition any_char (_ : N) : bool := true.          (* [\s\S] *)
Definition dot (c : N) : bool := negb (is_line_terminator c).   (* . *)
Definition not_char (a : string) (c : N) : bool :=
  negb (existsb (N.eqb c) (of_ascii a)).             (* [^a] *)

(** [String.prototype.replace] with a global pattern whose matches are never
    empty: scan from the left, and at a match of length [S n] emit the
    replacement and pass over the matched characters ([skip] counts those
    still to be passed over). *)
Fixpoint replace_from (m : matcher) (repl : jsstring) (skip : nat)
  (s : jsstring) : jsstring :=
  match s with
  | [] => []
  | c :: r =>
      match skip with
      | S k => replace_from m repl k r
      | O =>
          match m s with
          | Some (S n) => repl ++ replace_from m repl n r
          | _ => c :: replace_from m repl O r
          end
      end
  end.

Definition replace_all (m : matcher) (repl : jsstring) (s : jsstring) :=
  replace_from m repl O s.

(** The length of [s.match(re) || []] for a global pattern. *)
Fixpoint count_from (m : matcher) (skip : nat) (s : jsstring) : nat :=
  match s with
  | [] => O
  | _ :: r =>
      match skip with
      | S k => count_from m k r
      | O =>
          match m s with
          | Some (S n) => S (count_from m n r)
          | _ => count_from m O r
          end
      end
  end.

Definition count_matches (m : matcher) (s : jsstring) : nat :=
  count_from m O s.

(** [s.split(/\s+/)]: the pieces between maximal runs of blanks; [cur] is
    the piece being read, reversed. *)
Fixpoint split_ws_from (cur : jsstring) (in_ws : bool) (s : jsstring)
  : list jsstring :=
  match s with
  | [] => [rev cur]
  | c :: r =>
      if is_whitespace c then
        if in_ws then split_ws_from cur true r
        else rev cur :: split_ws_from [] true r
      else split_ws_from (c :: cur) false r
  end.

Definition split_ws (s : jsstring) : list jsstring :=
  split_ws_from [] false s.

(** Decimal rendering of an integer, as template literals do. *)
Definition show_Z (z : Z) : string := NilZero.string_of_int (Z.to_int z).

End JS.

(** * utils/helpers.ts *)

Module Helpers.
Import JS.

Record ReadingTime := {
  text : string;
  minutes : Z;
  words : Z;
}.

Definition wordsPerMinute : Z := 200.
Definition imageReadingTime : Z := 12.
Definition codeReadingTime : Z := 25.

(** The five patterns of [calculateReadingTime]. *)
Definition re_html : matcher :=                      (* /<[^>]*>/ *)
  lit (of_ascii "<") (star_greedy (not_char ">") (lit (of_ascii ">") accept)).
Definition re_code_block : matcher :=                (* /```[\s\S]*?```/ *)
  lit (of_ascii "```") (star_lazy any_char (lit (of_ascii "```") accept)).
Definition re_inline_code : matcher :=               (* /`[^`]*`/ *)
  lit (of_ascii "`") (star_greedy (not_char "`") (lit (of_ascii "`") accept)).
Definition re_link : matcher :=                      (* /\[.*?\]\(.*?\)/ *)
  lit (of_ascii "[") (star_lazy dot (lit (of_ascii "](")
    (star_lazy dot (lit (of_ascii ")") accept)))).
Definition re_image : matcher :=                     (* /!\[.*?\]\(.*?\)/ *)
  lit (of_ascii "!") re_link.

(** The link pattern has no capture group, so the replacement ["$1"] is
    inserted as it stands. *)
Definition cleanText (content : jsstring) : jsstring :=
  trim
    (replace_all re_link (of_ascii "$1")
      (replace_all re_image []
        (replace_all re_inline_code []
          (replace_all re_code_block []
            (replace_all re_html [] content))))).

Definition countWords (content : jsstring) : Z :=
  Z.of_nat
    (length (List.filter (fun word => (0 <? length word)%nat)
               (split_ws (cleanText content)))).

Definition countImages (content : jsstring) : Z :=
  Z.of_nat (count_matches re_image content).

Definition countCodeBlocks (content : jsstring) : Z :=
  Z.of_nat (count_matches re_code_block content).

(** The sum under [Math.ceil]. *)
Definition readingMinutes (w images codeBlocks : Z) : Q :=
  (inject_Z w / inject_Z wordsPerMinute
   + inject_Z (images * imageReadingTime) / inject_Z 60
   + inject_Z (codeBlocks * codeReadingTime) / inject_Z 60)%Q.

Definition calculateReadingTime (content : jsstring) : ReadingTime :=
  let w := countWords content in
  let images := countImages content in
  let codeBlocks := countCodeBlocks content in
  let totalMinutes := Qceiling (readingMinutes w images codeBlocks) in
  {| text := (show_Z totalMinutes +:+ " minute"
              +:+ (if negb (totalMinutes =? 1)%Z then "s" else EmptyString)
              +:+ " read")%string;
     minutes := totalMinutes;
     words := w |}.

End Helpers.

(** * The table of contents manager *)

Module Toc.
Import JS.

(** ** The page

    An element carries what the manager reads from it: its identity, tag,
    id, text, attribute names and classes, and the attribute names of its
    ancestors, nearest first. *)
Record Element := {
  node : nat;
  tagName : string;
  el_id : jsstring;
  textContent : jsstring;
  attributes : list string;
  classes : list string;
  ancestors : list (list string);
}.

(** A CSS selector is taken by what [el.matches] answers for it. *)
Definition Selector := Element -> bool.

Definition hasAttribute (el : Element) (name : string) : bool :=
  bool_decide (name ∈ attributes el).

Definition classListContains (el : Element) (name : string) : bool :=
  bool_decide (name ∈ classes el).

(** [el.closest("[name]")]: the element itself is tried first, then its
    ancestors. *)
Definition closestWithAttribute (el : Element) (name : string) : bool :=
  hasAttribute el name
  || existsb (fun attrs => bool_decide (name ∈ attrs)) (ancestors el).

Definition set_el_id (i : jsstring) (el : Element) : Element :=
  {| node := node el; tagName := tagName el; el_id := i;
     textContent := textContent el; attributes := attributes el;
     classes := classes el; ancestors := ancestors el |}.

(** ** Regular expression objects

    [re_exec text i] searches [text] from index [i] and answers with the end
    of the match.  A pattern with the [g] or [y] flag remembers in
    [lastIndex] where its last successful [test] ended and starts the next
    [test] there. *)
Record RegExp := {
  re_exec : jsstring -> nat -> option nat;
  re_global : bool;
  re_sticky : bool;
  lastIndex : nat;
}.

Definition re_stateful (re : RegExp) : bool := re_global re || re_sticky re.

Definition set_lastIndex (i : nat) (re : RegExp) : RegExp :=
  {| re_exec := re_exec re; re_global := re_global re;
     re_sticky := re_sticky re; lastIndex := i |}.

(** [RegExp.prototype.test]. *)
Definition test (re : RegExp) (s : jsstring) : bool * RegExp :=
  let start := if re_stateful re then lastIndex re else O in
  if (length s <? start)%nat then
    (false, if re_stateful re then set_lastIndex O re else re)
  else
    match re_exec re s start with
    | Some e => (true, if re_stateful re then set_lastIndex e re else re)
    | None => (false, if re_stateful re then set_lastIndex O re else re)
    end.

(** [patterns.some((re) => re.test(s))]: stops at the first pattern that
    answers true. *)
Fixpoint some_test (patterns : list RegExp) (s : jsstring)
  : bool * list RegExp :=
  match patterns with
  | [] => (false, [])
  | re :: rest =>
      let '(b, re') := test re s in
      if b then (true, re' :: rest)
      else let '(b', rest') := some_test rest s in (b', re' :: rest')
  end.

(** ** Options, after the defaults are merged in.  An empty attribute or
    class name is falsy and switches the corresponding check off; no
    heading selector means the default ["h2, h3"]. *)
Record TableOfContentsOptions := {
  headingSelector : option Selector;
  excludeSelectors : list Selector;
  skipAttribute : string;
  skipClass : string;
  skipContainerAttribute : string;
  excludeTextPatterns : list RegExp;
}.

Definition set_excludeTextPatterns (ps : list RegExp)
  (o : TableOfContentsOptions) : TableOfContentsOptions :=
  {| headingSelector := headingSelector o;
     excludeSelectors := excludeSelectors o;
     skipAttribute := skipAttribute o; skipClass := skipClass o;
     skipContainerAttribute := skipContainerAttribute o;
     excludeTextPatterns := ps |}.

Definition h2_h3 : Selector := fun el =>
  bool_decide (tagName el = "H2") || bool_decide (tagName el = "H3").

Definition truthy (s : string) : bool := negb (bool_decide (s = EmptyString)).

(** What the caller may pass to the constructor: every key is optional. *)
Record UserOptions := {
  u_headingSelector : option (option Selector);
  u_excludeSelectors : option (list Selector);
  u_skipAttribute : option string;
  u_skipClass : option string;
  u_skipContainerAttribute : option string;
  u_excludeTextPatterns : option (list RegExp);
}.

Definition no_options : UserOptions :=
  {| u_headingSelector := None; u_excludeSelectors := None;
     u_skipAttribute := None; u_skipClass := None;
     u_skipContainerAttribute := None; u_excludeTextPatterns := None |}.

Definition merge_options (u : UserOptions) : TableOfContentsOptions :=
  {| headingSelector := default (Some h2_h3) (u_headingSelector u);
     excludeSelectors := default [] (u_excludeSelectors u);
     skipAttribute := default "data-toc-skip" (u_skipAttribute u);
     skipClass := default "toc-skip" (u_skipClass u);
     skipContainerAttribute :=
       default "data-toc-skip-container" (u_skipContainerAttribute u);
     excludeTextPatterns := default [] (u_excludeTextPatterns u) |}.

(** ** The manager's objects *)
Record TocItem := {
  id : jsstring;
  text : jsstring;
  element : nat;
}.

Record Link := {
  href : jsstring;
  linkText : jsstring;
  dataTocIndex : nat;
  dataLevel : string;
  indented : bool;
  active : bool;
  ariaCurrent : option string;
  navigating : bool;
}.

Record Nav := {
  loading : bool;
  links : list Link;
}.

(** The variables captured by the header's touch handlers. *)
Record Toggle := {
  touchStartY : Z;
  touchStartX : Z;
  isTap : bool;
}.

(** The header of the panel; [toggle] is present when the listeners of
    [setupHeaderToggle] are attached to it. *)
Record Header := {
  toggle : option Toggle;
  ariaExpanded : option bool;
}.

Record Container := {
  hidden : bool;
  collapsed : bool;
  header : option Header;
}.

Record State := {
  tocItems : list TocItem;
  currentActiveIndex : Z;
  articleContent : option (list Element);
  tocNav : option Nav;
  tocContainer : option Container;
  isScrolling : bool;
  isMobile : bool;
  lastScrollTimestamp : Z;
  options : TableOfContentsOptions;
}.

(** What the browser answers when a handler runs. *)
Record World := {
  now : Z;
  innerWidth : Z;
  pageYOffset : Z;
  docScrollTop : Z;
  rectTop : nat -> Z;
  scrollMarginTop : nat -> jsstring;
  getElementById : jsstring -> option nat;
  smoothScroll : bool;
  scrollEndEvent : bool;
  canVibrate : bool;
  linkOutOfView : nat -> bool;
  toLowerCase : jsstring -> jsstring;
  normalizeNFD : jsstring -> jsstring;
}.

Inductive Callback :=
| CbMobileScroll (target : nat) (link : nat)
| CbSafetyReset
| CbMobileAdjust (offset : Z) (link : nat)
| CbDesktopFallback (targetPosition : Z) (link : nat)
| CbCheckScroll (lastScrollTop : Z) (scrollCheckCount : Z) (link : nat).

Inductive Effect :=
| ScrollIntoViewSmooth (target : nat)
| ScrollToSmooth (top : Z)
| ScrollToAuto (top : Z)
| ScrollToLegacy (top : Z)
| ScrollBy (dy : Z)
| LinkIntoView (link : nat)
| SetTimeout (cb : Callback) (delay : Z)
| OnScrollEnd (link : nat)
| Announce (message : string)
| Vibrate (ms : Z)
| PreventDefault.

(** Field updates. *)
Definition set_tocItems (x : list TocItem) (st : State) : State :=
  {| tocItems := x; currentActiveIndex := currentActiveIndex st;
     articleContent := articleContent st; tocNav := tocNav st;
     tocContainer := tocContainer st; isScrolling := isScrolling st;
     isMobile := isMobile st; lastScrollTimestamp := lastScrollTimestamp st;
     options := options st |}.
Definition set_currentActiveIndex (x : Z) (st : State) : State :=
  {| tocItems := tocItems st; currentActiveIndex := x;
     articleContent := articleContent st; tocNav := tocNav st;
     tocContainer := tocContainer st; isScrolling := isScrolling st;
     isMobile := isMobile st; lastScrollTimestamp := lastScrollTimestamp st;
     options := options st |}.
Definition set_articleContent (x : option (list Element)) (st : State)
  : State :=
  {| tocItems := tocItems st; currentActiveIndex := currentActiveIndex st;
     articleContent := x; tocNav := tocNav st;
     tocContainer := tocContainer st; isScrolling := isScrolling st;
     isMobile := isMobile st; lastScrollTimestamp := lastScrollTimestamp st;
     options := options st |}.
Definition set_tocNav (x : option Nav) (st : State) : State :=
  {| tocItems := tocItems st; currentActiveIndex := currentActiveIndex st;
     articleContent := articleContent st; tocNav := x;
     tocContainer := tocContainer st; isScrolling := isScrolling st;
     isMobile := isMobile st; lastScrollTimestamp := lastScrollTimestamp st;
     options := options st |}.
Definition set_tocContainer (x : option Container) (st : State) : State :=
  {| tocItems := tocItems st; currentActiveIndex := currentActiveIndex st;
     articleContent := articleContent st; tocNav := tocNav st;
     tocContainer := x; isScrolling := isScrolling st;
     isMobile := isMobile st; lastScrollTimestamp := lastScrollTimestamp st;
     options := options st |}.
Definition set_isScrolling (x : bool) (st : State) : State :=
  {| tocItems := tocItems st; currentActiveIndex := currentActiveIndex st;
     articleContent := articleContent st; tocNav := tocNav st;
     tocContainer := tocContainer st; isScrolling := x;
     isMobile := isMobile st; lastScrollTimestamp := lastScrollTimestamp st;
     options := options st |}.
Definition set_isMobile (x : bool) (st : State) : State :=
  {| tocItems := tocItems st; currentActiveIndex := currentActiveIndex st;
     articleContent := articleContent st; tocNav := tocNav st;
     tocContainer := tocContainer st; isScrolling := isScrolling st;
     isMobile := x; lastScrollTimestamp := lastScrollTimestamp st;
     options := options st |}.
Definition set_lastScrollTimestamp (x : Z) (st : State) : State :=
  {| tocItems := tocItems st; currentActiveIndex := currentActiveIndex st;
     articleContent := articleContent st; tocNav := tocNav st;
     tocContainer := tocContainer st; isScrolling := isScrolling st;
     isMobile := isMobile st; lastScrollTimestamp := x;
     options := options st |}.
Definition set_options (x : TableOfContentsOptions) (st : State) : State :=
  {| tocItems := tocItems st; currentActiveIndex := currentActiveIndex st;
     articleContent := articleContent st; tocNav := tocNav st;
     tocContainer := tocContainer st; isScrolling := isScrolling st;
     isMobile := isMobile st; lastScrollTimestamp := lastScrollTimestamp st;
     options := x |}.

Definition set_active (a : bool) (l : Link) : Link :=
  {| href := href l; linkText := linkText l; dataTocIndex := dataTocIndex l;
     dataLevel := dataLevel l; indented := indented l; active := a;
     ariaCurrent := Some (if a then "location" else "false");
     navigating := navigating l |}.
Definition set_navigating (n : bool) (l : Link) : Link :=
  {| href := href l; linkText := linkText l; dataTocIndex := dataTocIndex l;
     dataLevel := dataLevel l; indented := indented l; active := active l;
     ariaCurrent := ariaCurrent l; navigating := n |}.

(** ** Construction and device type *)

Definition updateDeviceType (w : World) (st : State) : State :=
  set_isMobile (innerWidth w <=? 1024) st.

(** The constructor looks the three elements up in the page, merges the
    options with the defaults and reads the device type. *)
Definition constructor (u : UserOptions)
  (article : option (list Element)) (nav : option Nav)
  (cont : option Container) (w : World) : State :=
  updateDeviceType w
    {| tocItems := []; currentActiveIndex := -1;
       articleContent := article; tocNav := nav; tocContainer := cont;
       isScrolling := false; isMobile := false; lastScrollTimestamp := 0;
       options := merge_options u |}.

(** ** Generating the list *)

Definition shouldExcludeHeading (o : TableOfContentsOptions) (el : Element)
  : bool * list RegExp :=
  let patterns := excludeTextPatterns o in
  if truthy (skipAttribute o) && hasAttribute el (skipAttribute o)
  then (true, patterns)
  else if truthy (skipClass o) && classListContains el (skipClass o)
  then (true, patterns)
  else if truthy (skipContainerAttribute o)
          && closestWithAttribute el (skipContainerAttribute o)
  then (true, patterns)
  else if existsb (fun sel : Selector => sel el) (excludeSelectors o)
  then (true, patterns)
  else some_test patterns (trim (textContent el)).

Definition is_word_char (c : N) : bool :=
  (((48 <=? c) && (c <=? 57)) || ((65 <=? c) && (c <=? 90))
   || ((97 <=? c) && (c <=? 122)) || (c =? 95))%N.

(** [replace(/\s+/g, "-")]. *)
Fixpoint dash_blanks (in_ws : bool) (s : jsstring) : jsstring :=
  match s with
  | [] => []
  | c :: r =>
      if is_whitespace c then
        if in_ws then dash_blanks true r else 45%N :: dash_blanks true r
      else c :: dash_blanks false r
  end.

Definition generateHeadingId (w : World) (el : Element) (index : nat)
  : jsstring :=
  let level := toLowerCase w (of_ascii (tagName el)) in
  let slug :=
    take 50
      (dash_blanks false
        (List.filter
           (fun c => is_word_char c || is_whitespace c || (c =? 45)%N)
           (List.filter (fun c => negb ((768 <=? c) && (c <=? 879))%N)
              (normalizeNFD w (toLowerCase w (textContent el)))))) in
  level ++ of_ascii "-" ++ of_ascii (show_Z (Z.of_nat index))
    ++ of_ascii "-" ++ slug.

Definition createTocLink (tocItem : TocItem) (index : nat) (tag : string)
  : Link :=
  {| href := of_ascii "#" ++ id tocItem;
     linkText := text tocItem;
     dataTocIndex := index;
     dataLevel := if bool_decide (tag = "H2") then "2" else "3";
     indented := bool_decide (tag = "H3");
     active := false; ariaCurrent := None; navigating := false |}.

(** The body of the [forEach] over the headings; the accumulator is the
    manager together with the document fragment being filled. *)
Definition generateHeading (w : World) (heading : Element) (index : nat)
  (acc : State * list Link) : State * list Link :=
  let '(st, fragment) := acc in
  let '(excluded, patterns) := shouldExcludeHeading (options st) heading in
  let st := set_options (set_excludeTextPatterns patterns (options st)) st in
  if excluded then (st, fragment)
  else
    let '(i, st) :=
      if bool_decide (el_id heading = [])
      then
        let i := generateHeadingId w heading index in
        (i, set_articleContent
              (option_map
                 (map (fun e => if (node e =? node heading)%nat
                                then set_el_id i e else e))
                 (articleContent st)) st)
      else (el_id heading, st) in
    let tocItem :=
      {| id := i; text := textContent heading; element := node heading |} in
    let st := set_tocItems (tocItems st ++ [tocItem]) st in
    (st, fragment
         ++ [createTocLink tocItem (length (tocItems st) - 1)
               (tagName heading)]).

Fixpoint forEachHeading (w : World) (headings : list Element) (index : nat)
  (acc : State * list Link) : State * list Link :=
  match headings with
  | [] => acc
  | heading :: rest =>
      forEachHeading w rest (S index) (generateHeading w heading index acc)
  end.

(** ** The collapsible header *)

(** The mutation observer installed with the listeners keeps
    [aria-expanded] in step with the [collapsed] class. *)
Definition observe (c : Container) : Container :=
  match header c with
  | Some h =>
      match toggle h with
      | Some _ =>
          {| hidden := hidden c; collapsed := collapsed c;
             header := Some {| toggle := toggle h;
                               ariaExpanded := Some (negb (collapsed c)) |} |}
      | None => c
      end
  | None => c
  end.

Definition set_collapsed (b : bool) (c : Container) : Container :=
  observe {| hidden := hidden c; collapsed := b; header := header c |}.

Definition set_header (h : option Header) (c : Container) : Container :=
  {| hidden := hidden c; collapsed := collapsed c; header := h |}.

Definition set_hidden (b : bool) (c : Container) : Container :=
  {| hidden := b; collapsed := collapsed c; header := header c |}.

Definition setupHeaderToggle (h : Header) : Header :=
  {| toggle := Some {| touchStartY := 0; touchStartX := 0; isTap := true |};
     ariaExpanded := Some true |}.

Definition setupMobileInteraction (w : World) (st : State) : State :=
  match tocContainer st with
  | None => st
  | Some c =>
      match header c with
      | None => st
      | Some tocHeader =>
          (* the clone keeps the attributes and loses the listeners *)
          let newHeader :=
            {| toggle := None; ariaExpanded := ariaExpanded tocHeader |} in
          if isMobile st then
            let c := set_header (Some (setupHeaderToggle newHeader)) c in
            let c :=
              if (6 <? length (tocItems st))%nat || (innerWidth w <=? 768)
              then set_collapsed true c else c in
            set_tocContainer (Some c) st
          else set_tocContainer (Some (set_header (Some newHeader) c)) st
      end
  end.

Definition generateTOC (w : World) (st : State) : State :=
  match articleContent st, tocNav st, tocContainer st with
  | Some content, Some nav, Some cont =>
      let headings :=
        List.filter (default h2_h3 (headingSelector (options st))) content in
      if (length headings =? 0)%nat then
        set_tocContainer (Some (set_hidden true cont)) st
      else
        let st :=
          set_tocNav (Some {| loading := true; links := links nav |}) st in
        let st := set_tocItems [] st in
        let '(st, fragment) := forEachHeading w headings 0 (st, []) in
        let st :=
          set_tocNav
            (Some {| loading := false; links := links nav ++ fragment |}) st in
        setupMobileInteraction w st
  | _, _, _ => st
  end.

(** [toggleCollapse] of [setupHeaderToggle]. *)
Definition toggleCollapse (w : World) (st : State) : State * list Effect :=
  match tocContainer st with
  | None => (st, [])
  | Some c =>
      let isCollapsed := collapsed c in
      (set_tocContainer (Some (set_collapsed (negb isCollapsed) c)) st,
       (if canVibrate w then [Vibrate 30] else [])
       ++ [Announce (if isCollapsed then "Table of contents expanded"
                     else "Table of contents collapsed")])
  end.

(** The listeners exist on a header that [setupHeaderToggle] has prepared;
    [with_toggle] runs a handler on the variables they share. *)
Definition with_toggle (st : State)
  (f : Container -> Header -> Toggle -> State * list Effect)
  : State * list Effect :=
  match tocContainer st with
  | Some c =>
      match header c with
      | Some h =>
          match toggle h with
          | Some t => f c h t
          | None => (st, [])
          end
      | None => (st, [])
      end
  | None => (st, [])
  end.

Definition set_toggle (t : Toggle) (c : Container) (h : Header) (st : State)
  : State :=
  set_tocContainer
    (Some (set_header
             (Some {| toggle := Some t; ariaExpanded := ariaExpanded h |}) c))
    st.

Definition handleTouchStart (clientX clientY : Z) (st : State)
  : State * list Effect :=
  with_toggle st (fun c h _ =>
    (set_toggle {| touchStartY := clientY; touchStartX := clientX;
                   isTap := true |} c h st, [])).

Definition handleTouchMove (clientX clientY : Z) (st : State)
  : State * list Effect :=
  with_toggle st (fun c h t =>
    let deltaY := Z.abs (clientY - touchStartY t) in
    let deltaX := Z.abs (clientX - touchStartX t) in
    if (10 <? deltaY) || (10 <? deltaX)
    then (set_toggle {| touchStartY := touchStartY t;
                        touchStartX := touchStartX t;
                        isTap := false |} c h st, [])
    else (st, [])).

Definition handleTouchEnd (w : World) (st : State) : State * list Effect :=
  with_toggle st (fun _ _ t =>
    if isTap t then
      let '(st', eff) := toggleCollapse w st in (st', PreventDefault :: eff)
    else (st, [])).

Definition headerClick (w : World) (st : State) : State * list Effect :=
  with_toggle st (fun _ _ _ =>
    if negb (isMobile st) then (st, [])
    else let '(st', eff) := toggleCollapse w st in (st', PreventDefault :: eff)).

Definition headerKeydown (w : World) (key : string) (st : State)
  : State * list Effect :=
  with_toggle st (fun _ _ _ =>
    if bool_decide (key = "Enter") || bool_decide (key = " ")
    then let '(st', eff) := toggleCollapse w st in (st', PreventDefault :: eff)
    else (st, [])).

(** ** Tracking the scroll position *)

Definition is_digit (c : N) : bool := ((48 <=? c) && (c <=? 57))%N.

Fixpoint digits_value (acc : Z) (s : jsstring) : Z :=
  match s with
  | c :: r =>
      if is_digit c then digits_value (10 * acc + Z.of_N (c - 48)) r else acc
  | [] => acc
  end.

(** [parseInt(s, 10)]; [None] is [NaN]. *)
Definition parseInt (s : jsstring) : option Z :=
  let s := drop_ws s in
  let '(sign, s) :=
    match s with
    | c :: r =>
        if (c =? 45)%N then (-1, r)
        else if (c =? 43)%N then (1, r) else (1, s)
    | [] => (1, [])
    end in
  match s with
  | c :: _ => if is_digit c then Some (sign * digits_value 0 s) else None
  | [] => None
  end.

(** [s || "0"]. *)
Definition or_zero (s : jsstring) : jsstring :=
  match s with [] => of_ascii "0" | _ => s end.

Definition getDynamicOffset (w : World) (st : State) : Z :=
  if negb (isMobile st) then 120
  else
    match tocItems st with
    | first :: _ =>
        match parseInt (or_zero (scrollMarginTop w (element first))) with
        | Some sm => if 0 <? sm then sm else 100
        | None => 100
        end
    | [] => 100
    end.

(** The [for] loop of [updateActiveTOC], from item [i] on. *)
Fixpoint findActive (w : World) (offset : Z) (items : list TocItem) (i : Z)
  (activeIndex : Z) : Z :=
  match items with
  | [] => activeIndex
  | item :: rest =>
      let scrollTop := pageYOffset w in
      let elementTop := rectTop w (element item) + scrollTop in
      findActive w offset rest (i + 1)
        (if elementTop <=? scrollTop + offset then i else activeIndex)
  end.

Definition updateActiveLinks (w : World) (activeIndex : Z) (st : State)
  : State * list Effect :=
  match tocNav st with
  | None => (st, [])
  | Some nav =>
      let tocLinks :=
        imap (fun index link => set_active (Z.of_nat index =? activeIndex) link)
          (links nav) in
      (set_tocNav (Some {| loading := loading nav; links := tocLinks |}) st,
       if (0 <=? activeIndex)
          && bool_decide (is_Some (tocLinks !! Z.to_nat activeIndex))
          && linkOutOfView w (Z.to_nat activeIndex)
       then [LinkIntoView (Z.to_nat activeIndex)] else [])
  end.

Definition updateActiveTOC (w : World) (st : State) : State * list Effect :=
  if (length (tocItems st) =? 0)%nat || isScrolling st then (st, [])
  else
    let offset := getDynamicOffset w st in
    let activeIndex := findActive w offset (tocItems st) 0 (-1) in
    if negb (activeIndex =? currentActiveIndex st) then
      let '(st, eff) := updateActiveLinks w activeIndex st in
      (set_currentActiveIndex activeIndex st, eff)
    else (st, []).

(** ** Navigation *)

Fixpoint findIndex_from (targetId : jsstring) (items : list TocItem) (i : Z)
  : Z :=
  match items with
  | [] => -1
  | item :: rest =>
      if bool_decide (id item = targetId) then i
      else findIndex_from targetId rest (i + 1)
  end.

Definition findIndex (targetId : jsstring) (items : list TocItem) : Z :=
  findIndex_from targetId items 0.

(** A link is known by its position among the anchors of the nav. *)
Definition update_link (f : Link -> Link) (link : nat) (st : State) : State :=
  match tocNav st with
  | Some nav =>
      set_tocNav
        (Some {| loading := loading nav;
                 links := alter f link (links nav) |}) st
  | None => st
  end.

Definition link_href (link : nat) (st : State) : option jsstring :=
  match tocNav st with
  | Some nav => option_map href (links nav !! link)
  | None => None
  end.

Definition onScrollComplete (w : World) (link : nat) (st : State)
  : State * list Effect :=
  let st := set_isScrolling false st in
  let st := update_link (set_navigating false) link st in
  let announce :=
    if isMobile st then [Announce "Navigated to section"] else [] in
  match option_map (drop 1) (link_href link st) with
  | Some (c :: targetId') =>
      let idx := findIndex (c :: targetId') (tocItems st) in
      if negb (idx =? -1) && negb (idx =? currentActiveIndex st) then
        let '(st, eff) := updateActiveLinks w idx st in
        (set_currentActiveIndex idx st, announce ++ eff)
      else (st, announce)
  | _ => (st, announce)
  end.

Definition scrollToElement (w : World) (target : nat) (link : nat)
  (st : State) : State * list Effect :=
  let st :=
    if isScrolling st && (3000 <? now w - lastScrollTimestamp st)
    then set_isScrolling false st else st in
  if isScrolling st then (st, [])
  else
    let st := set_lastScrollTimestamp (now w) (set_isScrolling true st) in
    let safety := SetTimeout CbSafetyReset 3000 in
    let offset := getDynamicOffset w st in
    if isMobile st then
      (st, [safety; ScrollIntoViewSmooth target;
            SetTimeout (CbMobileAdjust offset link) 320])
    else
      let scrollTop :=
        if pageYOffset w =? 0 then docScrollTop w else pageYOffset w in
      let elementTop := rectTop w target + scrollTop in
      let targetPosition := elementTop - offset in
      let st := update_link (set_navigating true) link st in
      if smoothScroll w then
        (st, [safety; ScrollToSmooth targetPosition;
              SetTimeout (CbDesktopFallback targetPosition link) 240;
              if scrollEndEvent w then OnScrollEnd link
              else SetTimeout (CbCheckScroll (pageYOffset w) 0 link) 50])
      else
        let '(st, eff) := onScrollComplete w link st in
        (st, [safety; ScrollToLegacy targetPosition] ++ eff).

(** The click listener of [initNavigationHandlers], for a click on the
    [link]-th anchor of the nav. *)
Definition navClick (w : World) (link : nat) (st : State)
  : State * list Effect :=
  match link_href link st with
  | Some (c :: targetId) =>
      if (c =? 35)%N then
        match getElementById w targetId with
        | Some targetElement =>
            let st := update_link (set_navigating true) link st in
            match isMobile st, tocContainer st with
            | true, Some cont =>
                (set_tocContainer (Some (set_collapsed true cont)) st,
                 [PreventDefault;
                  SetTimeout (CbMobileScroll targetElement link) 150])
            | _, _ =>
                let '(st, eff) := scrollToElement w targetElement link st in
                (st, PreventDefault :: eff)
            end
        | None => (st, [PreventDefault])
        end
      else (st, [])
  | _ => (st, [])
  end.

(** The timers the manager sets, when they fire. *)
Definition runCallback (w : World) (cb : Callback) (st : State)
  : State * list Effect :=
  match cb with
  | CbMobileScroll target link => scrollToElement w target link st
  | CbSafetyReset =>
      (if isScrolling st then set_isScrolling false st else st, [])
  | CbMobileAdjust offset link =>
      let '(st, eff) := onScrollComplete w link st in
      (st, ScrollBy (- offset) :: eff)
  | CbDesktopFallback targetPosition link =>
      let currentPos := pageYOffset w in
      if Z.abs (currentPos - targetPosition) <? 4 then
        let '(st, eff) := onScrollComplete w link st in
        (st, ScrollToAuto targetPosition :: eff)
      else (st, [])
  | CbCheckScroll lastScrollTop scrollCheckCount link =>
      let currentScrollTop := pageYOffset w in
      let scrollCheckCount := scrollCheckCount + 1 in
      if Z.abs (currentScrollTop - lastScrollTop) <? 1 then
        onScrollComplete w link st
      else if scrollCheckCount <? 50 then
        (st, [SetTimeout (CbCheckScroll currentScrollTop scrollCheckCount link)
                50])
      else onScrollComplete w link st
  end.

(** ** Everything that can happen after [init]

    [EvScroll] and [EvResize] are the passes that the throttled scroll
    listener and the debounced resize (or orientation) listener let
    through.  The document's [touchend] listener, which only cancels the
    second tap of a double tap on a link, touches nothing of the manager
    and has no event here. *)
Inductive Event :=
| EvScroll
| EvResize
| EvDocumentKeydown (key : string)
| EvNavClick (link : nat)
| EvTimeout (cb : Callback)
| EvScrollEnd (link : nat)
| EvHeaderTouchStart (clientX clientY : Z)
| EvHeaderTouchMove (clientX clientY : Z)
| EvHeaderTouchEnd
| EvHeaderClick
| EvHeaderKeydown (key : string).

Definition handle (w : World) (e : Event) (st : State)
  : State * list Effect :=
  match e with
  | EvScroll => updateActiveTOC w st
  | EvResize => (setupMobileInteraction w (updateDeviceType w st), [])
  | EvDocumentKeydown key =>
      match bool_decide (key = "Escape") && isMobile st, tocContainer st with
      | true, Some cont =>
          (set_tocContainer (Some (set_collapsed true cont)) st,
           [Announce "Table of contents collapsed"])
      | _, _ => (st, [])
      end
  | EvNavClick link => navClick w link st
  | EvTimeout cb => runCallback w cb st
  | EvScrollEnd link => onScrollComplete w link st
  | EvHeaderTouchStart x y => handleTouchStart x y st
  | EvHeaderTouchMove x y => handleTouchMove x y st
  | EvHeaderTouchEnd => handleTouchEnd w st
  | EvHeaderClick => headerClick w st
  | EvHeaderKeydown key => headerKeydown w key st
  end.

(** [init]: generate, then one tracking pass (the listeners are the
    events above). *)
Definition init (w : World) (st : State) : State * list Effect :=
  updateActiveTOC w (generateTOC w st).

(** A run of the page: the events in the order they are handled, each
    with what the browser answers at that time. *)
Fixpoint run (trace : list (World * Event)) (st : State) : State :=
  match trace with
  | [] => st
  | (w, e) :: rest => run rest (fst (handle w e st))
  end.

End Toc.

(** * The scaffolding script [cli.sh] *)

Module Cli.

Definition nl : string := String (Ascii.ascii_of_nat 10) EmptyString.
Definition dq : string := String (Ascii.ascii_of_nat 34) EmptyString.

(** ** The machine

    The programs the script starts.  What they do to the disk is not
    followed, apart from the temporary directory and the files the script
    writes itself; their exit status and output come from the [World]. *)
Inductive Cmd :=
| ScriptPath
| Mktemp
| Pwd
| Date
| Basename (path : string)
| GitClone (branch repo dir : string)
| GitRevParse
| Cd (dir : string)
| CdBack
| MkdirP (dir : string)
| RmRf (path : string)
| RmF (path : string)
| CpR (source target : string)
| Cp (source target : string)
| WriteFile (path content : string)
| Unknown (name : string) (args : list string).

(** The answers of the machine to the [n]-th thing the script asks. *)
Record World := {
  status : nat -> Cmd -> Z;
  stdout : nat -> Cmd -> string;
  is_dir : nat -> string -> bool;
  is_file : nat -> string -> bool;
  script_name : string;
  trap_lineno : string;
}.

(** The shell: what it has printed, how many questions it has asked, the
    files it has written, whether the temporary directory is there, the
    global variables, and whether [set -e] is being ignored (inside the
    test of an [if], after [!], left of [||]). *)
Record Sh := {
  out : list string;
  asked : nat;
  files : gmap string string;
  temp_exists : bool;
  TEMP_DIR : string;
  GITHUB_WALLE_VERSION_BRANCH : string;
  GITHUB_WALLE_VERSION_SHA : string;
  errexit_ignored : bool;
}.

Inductive Outcome (A : Type) :=
| Ret (a : A) (s : Sh)
| Exit (code : Z) (s : Sh)
| Diverge (s : Sh).
Arguments Ret {A}.
Arguments Exit {A}.
Arguments Diverge {A}.

Definition M (A : Type) := Sh -> Outcome A.

Definition ret {A} (a : A) : M A := fun s => Ret a s.
Definition bind {A B} (m : M A) (k : A -> M B) : M B := fun s =>
  match m s with
  | Ret a s' => k a s'
  | Exit c s' => Exit c s'
  | Diverge s' => Diverge s'
  end.

Notation "x <- m ;; k" := (bind m (fun x => k))
  (at level 100, m at next level, right associativity).
Notation "m ;;; k" := (bind m (fun _ => k))
  (at level 100, k at level 200, right associativity).

Definition get : M Sh := fun s => Ret s s.
Definition exit_ {A} (code : Z) : M A := fun s => Exit code s.
Definition diverge {A} : M A := fun s => Diverge s.
Definition modify (f : Sh -> Sh) : M unit := fun s => Ret tt (f s).

Definition with_out (o : list string) (s : Sh) : Sh :=
  {| out := o; asked := asked s; files := files s;
     temp_exists := temp_exists s; TEMP_DIR := TEMP_DIR s;
     GITHUB_WALLE_VERSION_BRANCH := GITHUB_WALLE_VERSION_BRANCH s;
     GITHUB_WALLE_VERSION_SHA := GITHUB_WALLE_VERSION_SHA s;
     errexit_ignored := errexit_ignored s |}.
Definition with_asked (n : nat) (s : Sh) : Sh :=
  {| out := out s; asked := n; files := files s;
     temp_exists := temp_exists s; TEMP_DIR := TEMP_DIR s;
     GITHUB_WALLE_VERSION_BRANCH := GITHUB_WALLE_VERSION_BRANCH s;
     GITHUB_WALLE_VERSION_SHA := GITHUB_WALLE_VERSION_SHA s;
     errexit_ignored := errexit_ignored s |}.
Definition with_files (f : gmap string string) (s : Sh) : Sh :=
  {| out := out s; asked := asked s; files := f;
     temp_exists := temp_exists s; TEMP_DIR := TEMP_DIR s;
     GITHUB_WALLE_VERSION_BRANCH := GITHUB_WALLE_VERSION_BRANCH s;
     GITHUB_WALLE_VERSION_SHA := GITHUB_WALLE_VERSION_SHA s;
     errexit_ignored := errexit_ignored s |}.
Definition with_temp_exists (b : bool) (s : Sh) : Sh :=
  {| out := out s; asked := asked s; files := files s;
     temp_exists := b; TEMP_DIR := TEMP_DIR s;
     GITHUB_WALLE_VERSION_BRANCH := GITHUB_WALLE_VERSION_BRANCH s;
     GITHUB_WALLE_VERSION_SHA := GITHUB_WALLE_VERSION_SHA s;
     errexit_ignored := errexit_ignored s |}.
Definition with_TEMP_DIR (d : string) (s : Sh) : Sh :=
  {| out := out s; asked := asked s; files := files s;
     temp_exists := temp_exists s; TEMP_DIR := d;
     GITHUB_WALLE_VERSION_BRANCH := GITHUB_WALLE_VERSION_BRANCH s;
     GITHUB_WALLE_VERSION_SHA := GITHUB_WALLE_VERSION_SHA s;
     errexit_ignored := errexit_ignored s |}.
Definition with_BRANCH (b : string) (s : Sh) : Sh :=
  {| out := out s; asked := asked s; files := files s;
     temp_exists := temp_exists s; TEMP_DIR := TEMP_DIR s;
     GITHUB_WALLE_VERSION_BRANCH := b;
     GITHUB_WALLE_VERSION_SHA := GITHUB_WALLE_VERSION_SHA s;
     errexit_ignored := errexit_ignored s |}.
Definition with_SHA (v : string) (s : Sh) : Sh :=
  {| out := out s; asked := asked s; files := files s;
     temp_exists := temp_exists s; TEMP_DIR := TEMP_DIR s;
     GITHUB_WALLE_VERSION_BRANCH := GITHUB_WALLE_VERSION_BRANCH s;
     GITHUB_WALLE_VERSION_SHA := v;
     errexit_ignored := errexit_ignored s |}.
Definition with_errexit_ignored (b : bool) (s : Sh) : Sh :=
  {| out := out s; asked := asked s; files := files s;
     temp_exists := temp_exists s; TEMP_DIR := TEMP_DIR s;
     GITHUB_WALLE_VERSION_BRANCH := GITHUB_WALLE_VERSION_BRANCH s;
     GITHUB_WALLE_VERSION_SHA := GITHUB_WALLE_VERSION_SHA s;
     errexit_ignored := b |}.

(** [echo]: one more line of output. *)
Definition echo (line : string) : M Z :=
  modify (fun s => with_out (out s ++ [line]) s) ;;; ret 0.

(** With [set -e], a command that fails ends the script, unless the shell
    is at a place where the failure is looked at. *)
Definition simple (m : M Z) : M Z :=
  c <- m ;;
  s <- get ;;
  if negb (c =? 0) && negb (errexit_ignored s) then exit_ c else ret c.

(** [ignoring m] runs [m] where [set -e] does not act, for everything [m]
    calls as well. *)
Definition ignoring {A} (m : M A) : M A :=
  s <- get ;;
  modify (with_errexit_ignored true) ;;;
  a <- m ;;
  modify (with_errexit_ignored (errexit_ignored s)) ;;;
  ret a.

Definition is_empty (s : string) : bool := bool_decide (s = EmptyString).

(** [${x:-d}] *)
Definition or_default (d x : string) : string := if is_empty x then d else x.

Definition is_flag (short long a : string) : bool :=
  bool_decide (a = short) || bool_decide (a = long).

Definition GITHUB_WALLE_REPO : string :=
  "https://github.com/FabrizioCafolla/walle-design-system".

(** The text that [create_config_file] writes. *)
Definition config_json (project_name source_version date : string) : string :=
  "{" +:+ nl
  +:+ "  " +:+ dq +:+ "name" +:+ dq +:+ ": " +:+ dq +:+ project_name +:+ dq
  +:+ "," +:+ nl
  +:+ "  " +:+ dq +:+ "walleVersion" +:+ dq +:+ ": " +:+ dq
  +:+ source_version +:+ dq +:+ "," +:+ nl
  +:+ "  " +:+ dq +:+ "updatedAt" +:+ dq +:+ ": " +:+ dq +:+ date +:+ dq
  +:+ nl +:+ "}" +:+ nl.

(** [${SCRIPT_PATH%%/lib/*}]: cut at the first ["/lib/"]. *)
Fixpoint strip_lib (path : string) : string :=
  if String.prefix "/lib/" path then EmptyString
  else match path with
       | EmptyString => EmptyString
       | String c rest => String c (strip_lib rest)
       end.

Section Machine.
Variable w : World.

(** Start a program: ask the machine, and record what the script itself
    can see of the effect. *)
Definition start (cmd : Cmd) : M (Z * string) := fun s =>
  let n := asked s in
  let c := status w n cmd in
  let s := with_asked (S n) s in
  let s :=
    if c =? 0 then
      match cmd with
      | WriteFile path content => with_files (<[path := content]> (files s)) s
      | Mktemp => with_temp_exists true s
      | RmRf path =>
          if bool_decide (path = TEMP_DIR s) then with_temp_exists false s
          else s
      | _ => s
      end
    else s in
  Ret (c, stdout w n cmd) s.

(** A command on a line of its own. *)
Definition exec (cmd : Cmd) : M Z := simple (r <- start cmd ;; ret (fst r)).

(** [var=$(cmd)]: the status of the assignment is that of the command. *)
Definition capture (cmd : Cmd) : M string :=
  r <- start cmd ;;
  simple (ret (fst r)) ;;;
  ret (snd r).

(** [$(cmd)] among the words of another command: only the output counts. *)
Definition subst (cmd : Cmd) : M string :=
  r <- start cmd ;; ret (snd r).

(** [[ -d path ]] and [[ -f path ]]. *)
Definition test_d (path : string) : M bool := fun s =>
  let n := asked s in
  Ret (if bool_decide (path = TEMP_DIR s) then temp_exists s
       else is_dir w n path) (with_asked (S n) s).

Definition test_f (path : string) : M bool := fun s =>
  let n := asked s in
  Ret (is_file w n path) (with_asked (S n) s).

(** ** The functions of the script *)

Definition usage_init : M Z :=
  echo ("Usage: " +:+ script_name w +:+ " [options]") ;;;
  echo EmptyString ;;;
  echo "Options:" ;;;
  echo "  -h, --help                    Show this help message" ;;;
  echo "  -n, --project-name <name>     Specify the project name (Required)" ;;;
  echo "  -d, --dir-path <path>         Specify the directory path for the project (Defaults to current directory)" ;;;
  echo EmptyString.

Definition usage_update : M Z :=
  echo ("Usage: " +:+ script_name w +:+ " update [options]") ;;;
  echo EmptyString ;;;
  echo "Options:" ;;;
  echo "  -h, --help                    Show this help message" ;;;
  echo "  -s, --source-version <version> Specify the source version to update from (Defaults to 'main')" ;;;
  echo "  -p, --project-path <path>     Specify the project path to update (Defaults to current directory)" ;;;
  echo EmptyString.

Definition print_info (msg : string) : M Z := echo (" [INFO] " +:+ msg).

Definition print_error {A} (msg : string) : M A :=
  echo (" [ERROR] " +:+ msg) ;;; exit_ 1.

Definition download_project (dir_path : string) (source_version : string)
  : M Z :=
  let source_version := or_default "main" source_version in
  (if is_empty dir_path
   then print_error "Directory path is required for downloading the project."
   else ret 0) ;;;
  c <- exec (GitClone source_version GITHUB_WALLE_REPO dir_path) ;;
  (if negb (c =? 0)
   then print_error ("Failed to download the project from "
                     +:+ GITHUB_WALLE_REPO +:+ ".")
   else ret 0) ;;;
  exec (Cd dir_path) ;;;
  sha <- capture GitRevParse ;;
  modify (with_SHA sha) ;;;
  exec CdBack.

(** [source_version] is [None] when the third argument is not given. *)
Definition create_config_file (project_name dir : string)
  (source_version : option string) : M Z :=
  let config_filepath := or_default "." dir +:+ "/.walle.config.json" in
  let source_version := default "main" source_version in
  date <- subst Date ;;
  c <- ignoring
         (exec (WriteFile config_filepath
                  (config_json project_name source_version date))) ;;
  (if negb (c =? 0)
   then print_error ("Failed to create configuration file: "
                     +:+ config_filepath)
   else ret 0) ;;;
  print_info ("Configuration file updated " +:+ config_filepath).

Definition sync_files (source_path target_path : string) : M Z :=
  (if is_empty source_path || is_empty target_path
   then print_error "Source and target paths are required for synchronization."
   else ret 0) ;;;
  isdir <- test_d source_path ;;
  (if isdir : bool then
     target_isdir <- test_d target_path ;;
     c <- (if target_isdir : bool then exec (RmRf target_path) else ret 0) ;;
     (if negb (c =? 0)
      then print_error ("Failed to create parent directory for: "
                        +:+ target_path)
      else ret 0) ;;;
     exec (CpR source_path target_path)
   else
     isfile <- test_f source_path ;;
     if isfile : bool then
       ignoring (exec (RmF target_path)) ;;;
       exec (Cp source_path target_path)
     else
       print_error ("Error synchronizing files from " +:+ source_path
                    +:+ " to " +:+ target_path +:+ ".")) ;;;
  print_info ("Synchronized from " +:+ source_path +:+ " to "
              +:+ target_path +:+ ".").

Definition sync_walle_files (temp_dir project_name : string) : M Z :=
  simple (sync_files (temp_dir +:+ "/.devcontainer/@walle")
            (project_name +:+ "/.devcontainer/@walle")) ;;;
  simple (sync_files (temp_dir +:+ "/.vscode") (project_name +:+ "/.vscode")) ;;;
  simple (sync_files (temp_dir +:+ "/lib/infrastructure/@walle")
            (project_name +:+ "/lib/infrastructure/@walle")) ;;;
  simple (sync_files (temp_dir +:+ "/lib/scripts/@walle")
            (project_name +:+ "/lib/scripts/@walle")) ;;;
  simple (sync_files (temp_dir +:+ "/lib/website/src/@walle")
            (project_name +:+ "/lib/website/src/@walle")) ;;;
  simple (sync_files (temp_dir +:+ "/.github/workflows/actions")
            (project_name +:+ "/.github/workflows/actions")) ;;;
  simple (sync_files (temp_dir +:+ "/walle.justfile")
            (project_name +:+ "/walle.justfile")) ;;;
  simple (sync_files (temp_dir +:+ "/LICENSE")
            (project_name +:+ "/.devcontainer/@walle/LICENSE")) ;;;
  simple (sync_files (temp_dir +:+ "/LICENSE")
            (project_name +:+ "/lib/infrastructure/@walle/LICENSE")) ;;;
  simple (sync_files (temp_dir +:+ "/LICENSE")
            (project_name +:+ "/lib/scripts/@walle/LICENSE")) ;;;
  simple (sync_files (temp_dir +:+ "/LICENSE")
            (project_name +:+ "/lib/website/src/@walle/LICENSE")) ;;;
  simple (sync_files (temp_dir +:+ "/LICENSE")
            (project_name +:+ "/.github/workflows/actions/@walle/LICENSE")).

(** [shift 2] with a single argument left fails and shifts nothing: under
    [set -e] the script ends, otherwise the loop sees the same argument
    again, for ever. *)
Definition shift2_fails {A} : M A := simple (ret 1) ;;; diverge.

(** The [while]/[case] loop of [init]. *)
Fixpoint init_args (args : list string) (PROJECT_NAME DIR_PATH : string)
  : M (string * string) :=
  match args with
  | [] => ret (PROJECT_NAME, DIR_PATH)
  | a :: rest =>
      if is_flag "-n" "--project-name" a then
        match rest with
        | v :: rest' => init_args rest' v DIR_PATH
        | [] => shift2_fails
        end
      else if is_flag "-d" "--dir-path" a then
        match rest with
        | v :: rest' => init_args rest' PROJECT_NAME v
        | [] => shift2_fails
        end
      else if is_flag "-h" "--help" a then usage_init ;;; exit_ 0
      else usage_init ;;; print_error ("Unknown command: " +:+ a)
  end.

Definition init (args : list string) : M Z :=
  DIR_PATH <- capture Pwd ;;
  parsed <- init_args args EmptyString DIR_PATH ;;
  let '(PROJECT_NAME, DIR_PATH) := parsed in
  (if is_empty PROJECT_NAME
   then print_error "Project name is required for initialization."
   else ret 0) ;;;
  isdir <- test_d DIR_PATH ;;
  (if negb isdir then exec (MkdirP DIR_PATH) else ret 0) ;;;
  print_info ("Start initialize project  to version in " +:+ DIR_PATH
              +:+ " directory.") ;;;
  simple (download_project (DIR_PATH +:+ "/" +:+ PROJECT_NAME) EmptyString) ;;;
  simple (create_config_file PROJECT_NAME (DIR_PATH +:+ "/" +:+ PROJECT_NAME)
            None) ;;;
  print_info ("Project " +:+ PROJECT_NAME +:+ " initialized successfully in "
              +:+ DIR_PATH +:+ " directory.").

(** The [while]/[case] loop of [update]. *)
Fixpoint update_args (args : list string) (PROJECT_PATH : string)
  : M string :=
  match args with
  | [] => ret PROJECT_PATH
  | a :: rest =>
      if is_flag "-w" "--walle-version" a then
        match rest with
        | v :: rest' => modify (with_BRANCH v) ;;; update_args rest' PROJECT_PATH
        | [] => modify (with_BRANCH EmptyString) ;;; shift2_fails
        end
      else if is_flag "-p" "--project-path" a then
        match rest with
        | v :: rest' => update_args rest' v
        | [] => shift2_fails
        end
      else if is_flag "-h" "--help" a then usage_init ;;; exit_ 0
      else usage_update ;;; print_error ("Unknown command: " +:+ a)
  end.

Definition update (args : list string) : M Z :=
  PROJECT_PATH <- capture Pwd ;;
  PROJECT_PATH <- update_args args PROJECT_PATH ;;
  s <- get ;;
  (if is_empty (GITHUB_WALLE_VERSION_BRANCH s)
   then print_error "Source version is required for update."
   else ret 0) ;;;
  isdir <- test_d PROJECT_PATH ;;
  (if negb isdir
   then print_error ("Project path does not exist: " +:+ PROJECT_PATH)
   else ret 0) ;;;
  print_info ("Start update project in " +:+ PROJECT_PATH +:+ " to version "
              +:+ GITHUB_WALLE_VERSION_BRANCH s) ;;;
  simple (download_project (TEMP_DIR s) (GITHUB_WALLE_VERSION_BRANCH s)) ;;;
  simple (sync_walle_files (TEMP_DIR s) PROJECT_PATH) ;;;
  name <- subst (Basename PROJECT_PATH) ;;
  s' <- get ;;
  simple (create_config_file name PROJECT_PATH
            (Some (GITHUB_WALLE_VERSION_SHA s'))) ;;;
  print_info "Project updated successfully".

(** The [while]/[case] loop of [main]: the command named last wins, and
    [usage], which the script does not define, is not found (status
    127). *)
Fixpoint main_args (args : list string) (command : string)
  (rest_args : list string) : M (string * list string) :=
  match args with
  | [] => ret (command, rest_args)
  | a :: rest =>
      if bool_decide (a = "init") then main_args rest "init" rest_args
      else if bool_decide (a = "update") then main_args rest "update" rest_args
      else if is_flag "-h" "--help" a then
        simple (ret 127) ;;; exit_ 0
      else main_args rest command (rest_args ++ [a])
  end.

Definition main (PROJECT_ROOT : string) (argv : list string) : M Z :=
  parsed <- main_args argv EmptyString [] ;;
  let '(command, args) := parsed in
  c <- ignoring (exec (Cd PROJECT_ROOT)) ;;
  (if negb (c =? 0)
   then print_error ("Failed to change directory to " +:+ PROJECT_ROOT)
   else ret 0) ;;;
  c <- ignoring
         (if bool_decide (command = "init") then init args
          else if bool_decide (command = "update") then update args
          else match args with
               | [] => ret 0
               | name :: rest => exec (Unknown name rest)
               end) ;;
  (if negb (c =? 0)
   then print_error ("Command '" +:+ command +:+ "' failed.")
   else ret 0) ;;;
  s <- get ;;
  exec (RmRf (TEMP_DIR s)).

(** The lines of the script outside its functions. *)
Definition script (argv : list string) : M Z :=
  SCRIPT_PATH <- capture ScriptPath ;;
  let PROJECT_ROOT := strip_lib SCRIPT_PATH in
  tmp <- capture Mktemp ;;
  modify (with_TEMP_DIR tmp) ;;;
  simple (main PROJECT_ROOT argv).

(** The [EXIT] trap. *)
Definition catch (code : Z) : M Z :=
  (if negb (code =? 0) then
     name <- subst (Basename (script_name w)) ;;
     echo ("[ERROR] in " +:+ name +:+ " at line " +:+ trap_lineno w
           +:+ " (error code " +:+ JS.show_Z code +:+ ")")
   else ret 0) ;;;
  s <- get ;;
  exists_ <- test_d (TEMP_DIR s) ;;
  if exists_ : bool then exec (RmRf (TEMP_DIR s)) else ret 0.

Definition initial : Sh :=
  {| out := []; asked := O; files := ∅; temp_exists := false;
     TEMP_DIR := EmptyString; GITHUB_WALLE_VERSION_BRANCH := "main";
     GITHUB_WALLE_VERSION_SHA := EmptyString; errexit_ignored := false |}.

(** What a run leaves behind: the exit status and the final state of the
    shell, or nothing when the script never ends.  The trap runs as a
    command of its own, where [set -e] acts again. *)
Definition run_cli (argv : list string) : option (Z * Sh) :=
  match script argv initial with
  | Ret c s | Exit c s =>
      match catch c (with_errexit_ignored false s) with
      | Ret _ s' => Some (c, s')
      | Exit c' s' => Some (c', s')
      | Diverge _ => None
      end
  | Diverge _ => None
  end.

End Machine.

(** A line of output that reports an error. *)
Definition mentions_error (line : string) : bool :=
  bool_decide (is_Some (String.index 0 "[ERROR]" line)).

End Cli.

(** * What the claims speak of, and a page to try them on *)

Module TocSpec.
Import JS Toc.

(** The top of a heading in the document, as [updateActiveTOC] computes
    it. *)
Definition elementTop (w : World) (item : TocItem) : Z :=
  rectTop w (element item) + pageYOffset w.

(** [idx] designates the last item of [items] whose top is at or above
    [line]; it is [-1] when no item reaches the line. *)
Definition last_at_or_above (w : World) (items : list TocItem) (line : Z)
  (idx : Z) : Prop :=
  (idx = -1 /\
   forall j item, items !! j = Some item -> line < elementTop w item)
  \/ (exists k item,
        idx = Z.of_nat k /\ items !! k = Some item
        /\ elementTop w item <= line
        /\ forall j item', items !! j = Some item' -> (k < j)%nat ->
             line < elementTop w item').

(** The offset of the tracking line: 120 off mobile; on mobile the first
    item's computed scroll-margin-top when [parseInt] reads a positive
    integer from it, and 100 otherwise. *)
Definition tracking_offset (w : World) (st : State) (offset : Z) : Prop :=
  (isMobile st = false -> offset = 120)
  /\ (isMobile st = true ->
      forall first rest sm,
        tocItems st = first :: rest ->
        parseInt (scrollMarginTop w (element first)) = Some sm ->
        0 < sm -> offset = sm)
  /\ (isMobile st = true ->
      (forall first rest sm,
         tocItems st = first :: rest ->
         parseInt (scrollMarginTop w (element first)) = Some sm ->
         sm <= 0) ->
      offset = 100).

(** An effect by which [scrollToElement] sets the page in motion. *)
Definition is_scroll_start (e : Effect) : bool :=
  match e with
  | ScrollIntoViewSmooth _ | ScrollToSmooth _ | ScrollToLegacy _ => true
  | _ => false
  end.

Definition starts_scroll (eff : list Effect) : bool :=
  existsb is_scroll_start eff.

(** The heading that a click on the [link]-th anchor goes to, when the
    anchor's href is a fragment and the page has an element of that id. *)
Definition click_target (w : World) (link : nat) (st : State) : option nat :=
  match link_href link st with
  | Some (c :: targetId) =>
      if (c =? 35)%N then getElementById w targetId else None
  | _ => None
  end.

(** Whether the click goes through the mobile branch of the listener. *)
Definition mobile_click (st : State) : bool :=
  isMobile st && bool_decide (is_Some (tocContainer st)).

(** Two states with the same items and the same link targets. *)
Definition same_toc (st st' : State) : Prop :=
  tocItems st' = tocItems st /\ forall l, link_href l st' = link_href l st.

(** The [link]-th anchor is the anchor of the [link]-th item, and no
    earlier item has the same id. *)
Definition link_of_item (st : State) (link : nat) : Prop :=
  exists item,
    tocItems st !! link = Some item
    /\ link_href link st = Some (35%N :: id item)
    /\ id item <> []
    /\ forall j item', tocItems st !! j = Some item' -> (j < link)%nat ->
         id item' <> id item.

(** An effect that will, in time, bring [onScrollComplete] for [link]. *)
Definition awaits_completion (link : nat) (e : Effect) : bool :=
  match e with
  | OnScrollEnd l
  | SetTimeout (CbMobileScroll _ l) _
  | SetTimeout (CbMobileAdjust _ l) _
  | SetTimeout (CbDesktopFallback _ l) _
  | SetTimeout (CbCheckScroll _ _ l) _ => (l =? link)%nat
  | _ => false
  end.

(** When [setupMobileInteraction] collapses the panel by itself. *)
Definition auto_collapse_condition (w : World) (st : State) : Prop :=
  (6 < length (tocItems st))%nat \/ innerWidth w <= 768.

(** The header carries the listeners of [setupHeaderToggle]. *)
Definition has_toggle (st : State) : Prop :=
  exists c h t,
    tocContainer st = Some c /\ header c = Some h /\ toggle h = Some t.

Definition panel_collapsed (st : State) : option bool :=
  option_map collapsed (tocContainer st).

(** A touch point [(clientX, clientY)] that is within 10 pixels of the
    start on both axes. *)
Definition within_tap (start p : Z * Z) : Prop :=
  Z.abs (p.1 - start.1) <= 10 /\ Z.abs (p.2 - start.2) <= 10.

Definition within_tapb (start p : Z * Z) : bool :=
  (Z.abs (p.1 - start.1) <=? 10) && (Z.abs (p.2 - start.2) <=? 10).

(** A touch gesture on the header: a start, the moves, the end. *)
Definition gesture (w : World) (start : Z * Z) (moves : list (Z * Z))
  (st : State) : State :=
  fst (handleTouchEnd w
         (foldl (fun s p => fst (handleTouchMove p.1 p.2 s))
            (fst (handleTouchStart start.1 start.2 st)) moves)).

(** ** Exclusion

    The five reasons for which a heading stays out of the list.  For the
    container there are two readings: an ancestor carries the attribute,
    or the heading itself or an ancestor does. *)
Definition carries_skip_attribute (o : TableOfContentsOptions) (el : Element)
  : Prop :=
  skipAttribute o <> EmptyString /\ skipAttribute o ∈ attributes el.

Definition carries_skip_class (o : TableOfContentsOptions) (el : Element)
  : Prop :=
  skipClass o <> EmptyString /\ skipClass o ∈ classes el.

Definition has_skip_ancestor (o : TableOfContentsOptions) (el : Element)
  : Prop :=
  skipContainerAttribute o <> EmptyString
  /\ Exists (fun attrs => skipContainerAttribute o ∈ attrs) (ancestors el).

Definition in_skip_container (o : TableOfContentsOptions) (el : Element)
  : Prop :=
  skipContainerAttribute o <> EmptyString
  /\ (skipContainerAttribute o ∈ attributes el
      \/ Exists (fun attrs => skipContainerAttribute o ∈ attrs)
           (ancestors el)).

Definition matches_exclude_selector (o : TableOfContentsOptions)
  (el : Element) : Prop :=
  Exists (fun sel : Selector => sel el = true) (excludeSelectors o).

(** The pattern matches somewhere in the text. *)
Definition text_matches (s : jsstring) (re : RegExp) : Prop :=
  is_Some (re_exec re s 0).

Definition matches_exclude_pattern (o : TableOfContentsOptions)
  (el : Element) : Prop :=
  Exists (text_matches (trim (textContent el))) (excludeTextPatterns o).

Definition excluded_as_claimed (o : TableOfContentsOptions) (el : Element)
  : Prop :=
  carries_skip_attribute o el \/ carries_skip_class o el
  \/ has_skip_ancestor o el \/ matches_exclude_selector o el
  \/ matches_exclude_pattern o el.

Definition excluded_as_built (o : TableOfContentsOptions) (el : Element)
  : Prop :=
  carries_skip_attribute o el \/ carries_skip_class o el
  \/ in_skip_container o el \/ matches_exclude_selector o el
  \/ matches_exclude_pattern o el.

#[export] Instance excluded_as_claimed_dec o el :
  Decision (excluded_as_claimed o el).
Proof.
  unfold excluded_as_claimed, carries_skip_attribute, carries_skip_class,
    has_skip_ancestor, matches_exclude_selector, matches_exclude_pattern,
    text_matches.
  apply _.
Defined.

#[export] Instance excluded_as_built_dec o el :
  Decision (excluded_as_built o el).
Proof.
  unfold excluded_as_built, carries_skip_attribute, carries_skip_class,
    in_skip_container, matches_exclude_selector, matches_exclude_pattern,
    text_matches.
  apply _.
Defined.

(** A pattern without the [g] and [y] flags: its [test] depends on the
    text alone. *)
Definition stateless (re : RegExp) : Prop := re_stateful re = false.

(** The headings that the query of [generateTOC] returns. *)
Definition matched_headings (o : TableOfContentsOptions)
  (content : list Element) : list Element :=
  List.filter (default h2_h3 (headingSelector o)) content.

(** The headings for which [shouldExcludeHeading] answers no, when it is
    asked about each in turn. *)
Fixpoint kept (o : TableOfContentsOptions) (headings : list Element)
  : list Element :=
  match headings with
  | [] => []
  | h :: rest =>
      let '(excluded, patterns) := shouldExcludeHeading o h in
      let o' := set_excludeTextPatterns patterns o in
      if excluded then kept o' rest else h :: kept o' rest
  end.

End TocSpec.

Module TocExample.
Import JS Toc.

(** An article with four headings: the second has no id yet, the third
    sits in a container that is to be skipped, the fourth carries the
    container attribute itself. *)
Definition h_intro : Element :=
  {| node := 0; tagName := "H2"; el_id := of_ascii "intro";
     textContent := of_ascii "Intro"; attributes := ["id"];
     classes := []; ancestors := [[]; ["id"]] |}.
Definition h_setup : Element :=
  {| node := 1; tagName := "H3"; el_id := [];
     textContent := of_ascii " Set up "; attributes := [];
     classes := []; ancestors := [[]; ["id"]] |}.
Definition h_aside : Element :=
  {| node := 2; tagName := "H2"; el_id := of_ascii "aside";
     textContent := of_ascii "Aside"; attributes := ["id"];
     classes := []; ancestors := [["data-toc-skip-container"]; ["id"]] |}.
Definition h_self : Element :=
  {| node := 3; tagName := "H2"; el_id := of_ascii "self";
     textContent := of_ascii "Self"; attributes := ["id"; "data-toc-skip-container"];
     classes := []; ancestors := [[]; ["id"]] |}.
Definition paragraph : Element :=
  {| node := 4; tagName := "P"; el_id := [];
     textContent := of_ascii "Some text."; attributes := [];
     classes := []; ancestors := [[]; ["id"]] |}.

Definition article : list Element :=
  [h_intro; paragraph; h_setup; h_aside; h_self].

Definition empty_nav : Nav := {| loading := false; links := [] |}.

Definition panel : Container :=
  {| hidden := false; collapsed := false;
     header := Some {| toggle := None; ariaExpanded := None |} |}.

Definition panel_without_header : Container :=
  {| hidden := false; collapsed := false; header := None |}.

(** A desktop browser, scrolled down by 500 pixels. *)
Definition desktop : World :=
  {| now := 10000; innerWidth := 1280; pageYOffset := 500;
     docScrollTop := 500;
     rectTop := fun n => match n with
                         | O => -400 | 1%nat => 100 | _ => 900
                         end;
     scrollMarginTop := fun _ => of_ascii "96px";
     getElementById := fun i =>
       if bool_decide (i = of_ascii "intro") then Some 0%nat
       else if bool_decide (i = of_ascii "h3-1--set-up-") then Some 1%nat
       else None;
     smoothScroll := true; scrollEndEvent := true; canVibrate := false;
     linkOutOfView := fun _ => false;
     toLowerCase := fun s =>
       map (fun c => if ((65 <=? c) && (c <=? 90))%N then (c + 32)%N else c) s;
     normalizeNFD := fun s => s |}.

(** The same page on a phone. *)
Definition phone : World :=
  {| now := 10000; innerWidth := 390; pageYOffset := 500;
     docScrollTop := 500;
     rectTop := rectTop desktop;
     scrollMarginTop := scrollMarginTop desktop;
     getElementById := getElementById desktop;
     smoothScroll := true; scrollEndEvent := true; canVibrate := true;
     linkOutOfView := fun _ => false;
     toLowerCase := toLowerCase desktop;
     normalizeNFD := normalizeNFD desktop |}.

Definition at_time (t : Z) (w : World) : World :=
  {| now := t; innerWidth := innerWidth w; pageYOffset := pageYOffset w;
     docScrollTop := docScrollTop w; rectTop := rectTop w;
     scrollMarginTop := scrollMarginTop w;
     getElementById := getElementById w;
     smoothScroll := smoothScroll w; scrollEndEvent := scrollEndEvent w;
     canVibrate := canVibrate w; linkOutOfView := linkOutOfView w;
     toLowerCase := toLowerCase w; normalizeNFD := normalizeNFD w |}.

Definition fresh (w : World) : State :=
  constructor no_options (Some article) (Some empty_nav) (Some panel) w.

(** The manager after [init]. *)
Definition ready (w : World) : State := fst (init w (fresh w)).

End TocExample.

Module CliSpec.
Import Cli.

(** ** What the loops over the arguments leave when they end *)

Definition is_help (a : string) : bool := is_flag "-h" "--help" a.

(** The command and the other arguments, as [main] sorts them; nothing
    when a help flag is met. *)
Fixpoint main_parse (args : list string) (command : string)
  (rest_args : list string) : option (string * list string) :=
  match args with
  | [] => Some (command, rest_args)
  | a :: rest =>
      if bool_decide (a = "init") then main_parse rest "init" rest_args
      else if bool_decide (a = "update") then main_parse rest "update" rest_args
      else if is_help a then None
      else main_parse rest command (rest_args ++ [a])
  end.

(** The project name and directory that [init] reads; nothing when an
    option has no value or is not known. *)
Fixpoint init_parse (args : list string) (PROJECT_NAME DIR_PATH : string)
  : option (string * string) :=
  match args with
  | [] => Some (PROJECT_NAME, DIR_PATH)
  | a :: rest =>
      if is_flag "-n" "--project-name" a then
        match rest with
        | v :: rest' => init_parse rest' v DIR_PATH
        | [] => None
        end
      else if is_flag "-d" "--dir-path" a then
        match rest with
        | v :: rest' => init_parse rest' PROJECT_NAME v
        | [] => None
        end
      else None
  end.

(** The branch and project path that [update] reads. *)
Fixpoint update_parse (args : list string) (BRANCH PROJECT_PATH : string)
  : option (string * string) :=
  match args with
  | [] => Some (BRANCH, PROJECT_PATH)
  | a :: rest =>
      if is_flag "-w" "--walle-version" a then
        match rest with
        | v :: rest' => update_parse rest' v PROJECT_PATH
        | [] => None
        end
      else if is_flag "-p" "--project-path" a then
        match rest with
        | v :: rest' => update_parse rest' BRANCH v
        | [] => None
        end
      else None
  end.

(** ** A JSON object of string members, in the layout of the script *)

Definition member (kv : string * string) : string :=
  "  " +:+ dq +:+ kv.1 +:+ dq +:+ ": " +:+ dq +:+ kv.2 +:+ dq.

Fixpoint members (l : list (string * string)) : string :=
  match l with
  | [] => EmptyString
  | [kv] => member kv +:+ nl
  | kv :: rest => member kv +:+ "," +:+ nl +:+ members rest
  end.

Definition render_object (l : list (string * string)) : string :=
  "{" +:+ nl +:+ members l +:+ "}" +:+ nl.

(** Where the configuration of a project is kept. *)
Definition config_path (project_dir : string) : string :=
  or_default "." project_dir +:+ "/.walle.config.json".

(** The object with the three members of the configuration. *)
Definition config_object (name walleVersion updatedAt : string) : string :=
  render_object
    [("name", name); ("walleVersion", walleVersion); ("updatedAt", updatedAt)].

(** What a run of [command] with the options [args] is to leave behind:
    the directory, the name and the version are read from the options, the
    current directory, [basename] and [git rev-parse] as the command reads
    them, at some step of the run. *)
Definition persisted (w : World) (command : string) (args : list string)
  (s : Sh) : Prop :=
  (command = "init" ->
   exists p n name dir,
     init_parse args EmptyString (stdout w p Pwd) = Some (name, dir)
     /\ name <> EmptyString
     /\ files s !! config_path (dir +:+ "/" +:+ name)
        = Some (config_object name "main" (stdout w n Date)))
  /\ (command = "update" ->
      exists p k m n branch path,
        update_parse args "main" (stdout w p Pwd) = Some (branch, path)
        /\ branch <> EmptyString
        /\ files s !! config_path path
           = Some (config_object (stdout w k (Basename path))
                     (stdout w m GitRevParse) (stdout w n Date))).

End CliSpec.

Module CliExample.
Import Cli.

Definition contains (needle s : string) : bool :=
  bool_decide (is_Some (String.index 0 needle s)).

(** A machine on which every program succeeds, except that copying
    [.vscode] into the project fails. *)
Definition copy_fails : World :=
  {| status := fun _ cmd =>
       match cmd with
       | CpR _ target => if contains "/.vscode" target then 1 else 0
       | _ => 0
       end;
     stdout := fun _ cmd =>
       match cmd with
       | ScriptPath => "/work/site/lib/scripts/@walle"
       | Mktemp => "/tmp/tmp.walle"
       | Pwd => "/work/site"
       | Date => "2025-01-01T00:00:00"
       | Basename path =>
           if bool_decide (path = "/work/site") then "site" else "cli.sh"
       | GitRevParse => "abc1234"
       | _ => EmptyString
       end;
     is_dir := fun _ path =>
       negb (contains "LICENSE" path || contains "justfile" path);
     is_file := fun _ _ => true;
     script_name := "./lib/scripts/@walle/cli.sh";
     trap_lineno := "1" |}.

(** The same machine where the directory for a new project cannot be
    made, and yet the clone goes through. *)
Definition mkdir_fails : World :=
  {| status := fun _ cmd =>
       match cmd with
       | MkdirP _ => 1
       | _ => 0
       end;
     stdout := stdout copy_fails;
     is_dir := fun _ path => negb (contains "/new" path);
     is_file := fun _ _ => true;
     script_name := script_name copy_fails;
     trap_lineno := "1" |}.

(** The same machine where the clone fails. *)
Definition clone_fails : World :=
  {| status := fun _ cmd =>
       match cmd with
       | GitClone _ _ _ => 128
       | _ => 0
       end;
     stdout := stdout copy_fails;
     is_dir := is_dir copy_fails;
     is_file := fun _ _ => true;
     script_name := script_name copy_fails;
     trap_lineno := "1" |}.

End CliExample.

(** * Reading time *)

Module HelpersFacts.
Import JS Helpers.

Lemma readingMinutes_600 (w i k : Z) :
  (readingMinutes w i k == (3 * w + 120 * i + 250 * k) # 600)%Q.
Proof.
  unfold readingMinutes, wordsPerMinute, imageReadingTime, codeReadingTime.
  unfold Qeq, Qdiv, Qplus, Qmult, Qinv, inject_Z; simpl. lia.
Qed.

Lemma Qceiling_bounds (x : Q) :
  (inject_Z (Qceiling x) - 1 < x /\ x <= inject_Z (Qceiling x))%Q.
Proof.
  split; [|apply Qle_ceiling].
  pose proof (Qceiling_lt x) as H.
  assert (E : (inject_Z (Qceiling x) - 1 == inject_Z (Qceiling x - 1))%Q).
  { unfold Qeq, Qminus, Qplus, Qopp, inject_Z; simpl. lia. }
  rewrite E. exact H.
Qed.


End HelpersFacts.

(** * The table of contents manager: scroll tracking *)

Module TocTracking.
Import JS Toc TocSpec.

Lemma findActive_spec (w : World) (offset : Z) (items : list TocItem) :
  forall i acc,
    let line := pageYOffset w + offset in
    let r := findActive w offset items i acc in
    (r = acc /\
     forall j item, items !! j = Some item -> line < elementTop w item)
    \/ (exists k item,
          r = i + Z.of_nat k /\ items !! k = Some item
          /\ elementTop w item <= line
          /\ forall j item', items !! j = Some item' -> (k < j)%nat ->
               line < elementTop w item').
Proof.
  induction items as [|it rest IH]; intros i acc line r.
  - left. split; [reflexivity|]. intros j item H. destruct j; discriminate.
  - subst r. cbn [findActive]. fold (elementTop w it).
    destruct (Z.leb_spec (elementTop w it) (pageYOffset w + offset)) as [Hle|Hgt].
    + destruct (IH (i + 1) i) as [[Hr Hall]|(k & item & Hr & Hk & Htop & Hafter)].
      * right. exists O, it. rewrite Hr. repeat split; [lia| assumption |].
        intros j item' Hj Hlt. destruct j as [|j]; [lia|].
        apply (Hall j item' Hj).
      * right. exists (S k), item. rewrite Hr.
        repeat split; [lia| assumption | assumption |].
        intros j item' Hj Hlt. destruct j as [|j]; [lia|].
        apply (Hafter j item' Hj). lia.
    + destruct (IH (i + 1) acc) as [[Hr Hall]|(k & item & Hr & Hk & Htop & Hafter)].
      * left. split; [exact Hr|]. intros j item Hj.
        destruct j as [|j]; [injection Hj as <-; unfold line; lia|].
        apply (Hall j item Hj).
      * right. exists (S k), item. rewrite Hr.
        repeat split; [lia| assumption | assumption |].
        intros j item' Hj Hlt. destruct j as [|j]; [lia|].
        apply (Hafter j item' Hj). lia.
Qed.

Lemma parseInt_or_zero (s : jsstring) (sm : Z) :
  parseInt (or_zero s) = Some sm -> 0 < sm -> parseInt s = Some sm.
Proof.
  destruct s as [|c r]; [|exact (fun H _ => H)].
  cbn. intros [= <-]. lia.
Qed.

Lemma parseInt_or_zero_back (s : jsstring) (sm : Z) :
  parseInt s = Some sm -> parseInt (or_zero s) = Some sm.
Proof. destruct s; [discriminate|exact (fun H => H)]. Qed.

Lemma getDynamicOffset_spec (w : World) (st : State) :
  tracking_offset w st (getDynamicOffset w st).
Proof.
  unfold tracking_offset, getDynamicOffset.
  destruct (isMobile st); cbn [negb].
  - split; [discriminate|]. split.
    + intros _ first rest sm -> Hp Hpos.
      rewrite (parseInt_or_zero_back _ _ Hp).
      destruct (Z.ltb_spec 0 sm); [reflexivity|lia].
    + intros _ Hnone. destruct (tocItems st) as [|first rest]; [reflexivity|].
      destruct (parseInt (or_zero (scrollMarginTop w (element first))))
        as [sm|] eqn:Hp; [|reflexivity].
      destruct (Z.ltb_spec 0 sm) as [Hpos|]; [|reflexivity].
      pose proof (Hnone first rest sm eq_refl (parseInt_or_zero _ _ Hp Hpos)).
      lia.
  - split; [reflexivity|]. split; discriminate.
Qed.

Lemma updateActiveLinks_marks (w : World) (idx : Z) (st : State) (nav : Nav) :
  tocNav (fst (updateActiveLinks w idx st)) = Some nav ->
  forall j l, links nav !! j = Some l -> active l = (Z.of_nat j =? idx).
Proof.
  unfold updateActiveLinks. destruct (tocNav st) as [nav0|] eqn:Hnav; cbn.
  - intros [= <-] j l. cbn [links]. rewrite list_lookup_imap.
    destruct (links nav0 !! j); [|discriminate]. cbn. intros [= <-].
    reflexivity.
  - rewrite Hnav. discriminate.
Qed.

Lemma updateActiveLinks_keeps (w : World) (idx : Z) (st : State) :
  let st' := fst (updateActiveLinks w idx st) in
  tocItems st' = tocItems st /\ isScrolling st' = isScrolling st
  /\ lastScrollTimestamp st' = lastScrollTimestamp st
  /\ isMobile st' = isMobile st /\ tocContainer st' = tocContainer st
  /\ currentActiveIndex st' = currentActiveIndex st
  /\ options st' = options st.
Proof.
  unfold updateActiveLinks. destruct (tocNav st); cbn; repeat split.
Qed.

(** C1.  In a scroll-tracking pass with a non-empty list and no
    programmatic scroll in flight, the index that [updateActiveTOC] leaves
    as active is that of the last item whose top is at or above
    scrollTop + offset, and -1 when no item reaches that line.  The offset
    is 120 off mobile; on mobile it is the first item's computed
    scroll-margin-top when [parseInt] reads a positive integer from it, and
    100 otherwise.  When the index changes, the links are marked anew: a
    link is active exactly when its position is the new index. *)
Theorem updateActiveTOC_marks_last_heading (w : World) (st : State) :
  tocItems st <> [] ->
  isScrolling st = false ->
  let st' := fst (updateActiveTOC w st) in
  exists offset,
    tracking_offset w st offset
    /\ last_at_or_above w (tocItems st) (pageYOffset w + offset)
         (currentActiveIndex st')
    /\ (currentActiveIndex st' <> currentActiveIndex st ->
        forall nav, tocNav st' = Some nav ->
        forall j l, links nav !! j = Some l ->
          active l = (Z.of_nat j =? currentActiveIndex st')).
Proof.
  intros Hne Hscroll st'. exists (getDynamicOffset w st).
  split; [apply getDynamicOffset_spec|].
  assert (Hlast : last_at_or_above w (tocItems st)
                    (pageYOffset w + getDynamicOffset w st)
                    (findActive w (getDynamicOffset w st) (tocItems st) 0 (-1))).
  { destruct (findActive_spec w (getDynamicOffset w st) (tocItems st) 0 (-1))
      as [[Hr Hall]|(k & item & Hr & Hk & Htop & Hafter)].
    - left. split; assumption.
    - right. exists k, item. rewrite Hr. repeat split; try assumption. }
  subst st'. unfold updateActiveTOC.
  destruct (tocItems st) as [|it rest] eqn:Hitems; [congruence|].
  rewrite Hscroll. cbn [length Nat.eqb orb].
  rewrite <- Hitems in *.
  set (idx := findActive w (getDynamicOffset w st) (tocItems st) 0 (-1)) in *.
  destruct (Z.eqb_spec idx (currentActiveIndex st)) as [Heq|Hneq]; cbn [negb].
  - cbn [fst]. rewrite <- Heq. split; [exact Hlast|]. intros H; congruence.
  - destruct (updateActiveLinks w idx st) as [st1 eff] eqn:Hupd. cbn [fst].
    cbn [currentActiveIndex set_currentActiveIndex].
    split; [exact Hlast|]. intros _ nav Hnav.
    apply (updateActiveLinks_marks w idx st nav).
    rewrite Hupd. exact Hnav.
Qed.

(** The pass on the example page, on a phone whose headings have a scroll
    margin of 96 pixels. *)
Lemma updateActiveTOC_marks_last_heading_witness :
  let w := TocExample.phone in
  let st := TocExample.ready TocExample.desktop in
  let st' := fst (updateActiveTOC w (set_isMobile true st)) in
  exists offset,
    tracking_offset w (set_isMobile true st) offset
    /\ last_at_or_above w (tocItems st) (pageYOffset w + offset)
         (currentActiveIndex st')
    /\ (currentActiveIndex st' <> currentActiveIndex st ->
        forall nav, tocNav st' = Some nav ->
        forall j l, links nav !! j = Some l ->
          active l = (Z.of_nat j =? currentActiveIndex st')).
Proof.
  intros w st.
  apply (updateActiveTOC_marks_last_heading w (set_isMobile true st)).
  - discriminate.
  - reflexivity.
Defined.

End TocTracking.

(** * The table of contents manager: what the handlers never touch *)

Module TocFrame.
Import JS Toc TocSpec.

Lemma same_toc_refl (st : State) : same_toc st st.
Proof. split; reflexivity. Qed.

Lemma same_toc_trans (a b c : State) :
  same_toc a b -> same_toc b c -> same_toc a c.
Proof.
  intros [H1 H2] [H3 H4]. split; [congruence|].
  intros l. rewrite H4. apply H2.
Qed.

Lemma same_toc_fields (st st' : State) :
  tocItems st' = tocItems st -> tocNav st' = tocNav st -> same_toc st st'.
Proof.
  intros Hi Hn. split; [exact Hi|]. intros l. unfold link_href.
  rewrite Hn. reflexivity.
Qed.

Lemma same_toc_update_link (f : Link -> Link) (link : nat) (st : State) :
  (forall l, href (f l) = href l) ->
  same_toc st (update_link f link st).
Proof.
  intros Hf. unfold update_link. destruct (tocNav st) as [nav|] eqn:Hnav.
  - split; [reflexivity|]. intros l. unfold link_href. cbn. rewrite Hnav.
    destruct (decide (link = l)) as [->|Hne].
    + rewrite list_lookup_alter_eq. destruct (links nav !! l); cbn; [|reflexivity].
      rewrite Hf. reflexivity.
    + rewrite list_lookup_alter_ne by exact Hne. reflexivity.
  - apply same_toc_refl.
Qed.

Lemma same_toc_updateActiveLinks (w : World) (idx : Z) (st : State) :
  same_toc st (fst (updateActiveLinks w idx st)).
Proof.
  unfold updateActiveLinks. destruct (tocNav st) as [nav|] eqn:Hnav.
  - split; [reflexivity|]. intros l. unfold link_href. cbn. rewrite Hnav.
    rewrite list_lookup_imap. destruct (links nav !! l); reflexivity.
  - apply same_toc_refl.
Qed.

Lemma same_toc_updateActiveTOC (w : World) (st : State) :
  same_toc st (fst (updateActiveTOC w st)).
Proof.
  unfold updateActiveTOC.
  destruct ((length (tocItems st) =? 0)%nat || isScrolling st);
    [apply same_toc_refl|].
  destruct (negb _); [|apply same_toc_refl].
  pose proof (same_toc_updateActiveLinks w
    (findActive w (getDynamicOffset w st) (tocItems st) 0 (-1)) st) as H.
  destruct (updateActiveLinks w _ st) as [st1 eff]. cbn [fst] in *.
  eapply same_toc_trans; [exact H|]. apply same_toc_fields; reflexivity.
Qed.

Lemma same_toc_onScrollComplete (w : World) (link : nat) (st : State) :
  same_toc st (fst (onScrollComplete w link st)).
Proof.
  unfold onScrollComplete.
  set (st1 := update_link (set_navigating false) link (set_isScrolling false st)).
  assert (H1 : same_toc st st1).
  { eapply same_toc_trans;
      [|apply same_toc_update_link; intros; reflexivity].
    apply same_toc_fields; reflexivity. }
  destruct (option_map (drop 1) (link_href link st1)) as [[|c t]|];
    try exact H1.
  destruct (negb _ && negb _); [|exact H1].
  pose proof (same_toc_updateActiveLinks w
                (findIndex (c :: t) (tocItems st1)) st1) as H.
  destruct (updateActiveLinks w _ st1) as [st2 eff]. cbn [fst] in *.
  eapply same_toc_trans; [exact H1|].
  eapply same_toc_trans; [exact H|]. apply same_toc_fields; reflexivity.
Qed.

Lemma same_toc_scrollToElement (w : World) (target link : nat) (st : State) :
  same_toc st (fst (scrollToElement w target link st)).
Proof.
  unfold scrollToElement.
  set (st0 := if isScrolling st && (3000 <? now w - lastScrollTimestamp st)
              then set_isScrolling false st else st).
  assert (H0 : same_toc st st0).
  { subst st0. destruct (_ && _); [apply same_toc_fields; reflexivity|].
    apply same_toc_refl. }
  destruct (isScrolling st0); [exact H0|].
  set (st1 := set_lastScrollTimestamp (now w) (set_isScrolling true st0)).
  assert (H1 : same_toc st st1).
  { eapply same_toc_trans; [exact H0|]. apply same_toc_fields; reflexivity. }
  destruct (isMobile st1); [exact H1|].
  assert (H2 : same_toc st (update_link (set_navigating true) link st1)).
  { eapply same_toc_trans; [exact H1|].
    apply same_toc_update_link. intros; reflexivity. }
  destruct (smoothScroll w); [exact H2|].
  pose proof (same_toc_onScrollComplete w link
                (update_link (set_navigating true) link st1)) as H3.
  destruct (onScrollComplete w link _) as [st3 eff]. cbn [fst] in *.
  eapply same_toc_trans; [exact H2|exact H3].
Qed.

Lemma same_toc_navClick (w : World) (link : nat) (st : State) :
  same_toc st (fst (navClick w link st)).
Proof.
  unfold navClick. destruct (link_href link st) as [[|c t]|];
    try apply same_toc_refl.
  destruct (c =? 35)%N; [|apply same_toc_refl].
  destruct (getElementById w t) as [target|]; [|apply same_toc_refl].
  set (st1 := update_link (set_navigating true) link st).
  assert (H1 : same_toc st st1)
    by (apply same_toc_update_link; intros; reflexivity).
  pose proof (same_toc_scrollToElement w target link st1) as H2.
  destruct (scrollToElement w target link st1) as [st2 eff]. cbn [fst] in *.
  destruct (isMobile st1); [destruct (tocContainer st1)|]; cbn [fst].
  - eapply same_toc_trans; [exact H1|]. apply same_toc_fields; reflexivity.
  - eapply same_toc_trans; [exact H1|exact H2].
  - eapply same_toc_trans; [exact H1|exact H2].
Qed.

Lemma same_toc_runCallback (w : World) (cb : Callback) (st : State) :
  same_toc st (fst (runCallback w cb st)).
Proof.
  destruct cb as [target link| |offset link|pos link|last count link];
    cbn [runCallback].
  - apply same_toc_scrollToElement.
  - destruct (isScrolling st); [apply same_toc_fields; reflexivity|].
    apply same_toc_refl.
  - pose proof (same_toc_onScrollComplete w link st) as H.
    destruct (onScrollComplete w link st). exact H.
  - pose proof (same_toc_onScrollComplete w link st) as H.
    destruct (onScrollComplete w link st).
    destruct (_ <? 4); [exact H|apply same_toc_refl].
  - pose proof (same_toc_onScrollComplete w link st) as H.
    destruct (_ <? 1); [exact H|].
    destruct (_ <? 50); [apply same_toc_refl|exact H].
Qed.

Lemma same_toc_setupMobileInteraction (w : World) (st : State) :
  same_toc st (setupMobileInteraction w st).
Proof.
  unfold setupMobileInteraction.
  destruct (tocContainer st) as [c|]; [|apply same_toc_refl].
  destruct (header c); [|apply same_toc_refl].
  destruct (isMobile st); apply same_toc_fields; reflexivity.
Qed.

Lemma same_toc_toggleCollapse (w : World) (st : State) :
  same_toc st (fst (toggleCollapse w st)).
Proof.
  unfold toggleCollapse. destruct (tocContainer st); [|apply same_toc_refl].
  apply same_toc_fields; reflexivity.
Qed.

Lemma same_toc_with_toggle (st : State)
  (f : Container -> Header -> Toggle -> State * list Effect) :
  (forall c h t, same_toc st (fst (f c h t))) ->
  same_toc st (fst (with_toggle st f)).
Proof.
  intros Hf. unfold with_toggle.
  destruct (tocContainer st) as [c|]; [|apply same_toc_refl].
  destruct (header c) as [h|]; [|apply same_toc_refl].
  destruct (toggle h) as [t|]; [apply Hf|apply same_toc_refl].
Qed.

(** No event changes the items or the targets of the links. *)
Lemma same_toc_handle (w : World) (e : Event) (st : State) :
  same_toc st (fst (handle w e st)).
Proof.
  pose proof (same_toc_toggleCollapse w st) as Ht.
  destruct e as [| |key|link|cb|link|x y|x y| | |key]; cbn [handle].
  - apply same_toc_updateActiveTOC.
  - cbn [fst]. eapply same_toc_trans;
      [|apply same_toc_setupMobileInteraction].
    apply same_toc_fields; reflexivity.
  - destruct (_ && _); [|apply same_toc_refl].
    destruct (tocContainer st); [|apply same_toc_refl].
    apply same_toc_fields; reflexivity.
  - apply same_toc_navClick.
  - apply same_toc_runCallback.
  - apply same_toc_onScrollComplete.
  - apply same_toc_with_toggle. intros. apply same_toc_fields; reflexivity.
  - apply same_toc_with_toggle. intros c h t. cbn zeta.
    destruct (orb _ _); [apply same_toc_fields; reflexivity|apply same_toc_refl].
  - apply same_toc_with_toggle. intros c h t.
    destruct (toggleCollapse w st). destruct (isTap t); [exact Ht|].
    apply same_toc_refl.
  - apply same_toc_with_toggle. intros c h t.
    destruct (toggleCollapse w st). destruct (negb _); [|exact Ht].
    apply same_toc_refl.
  - apply same_toc_with_toggle. intros c h t.
    destruct (toggleCollapse w st). destruct (_ || _); [exact Ht|].
    apply same_toc_refl.
Qed.

Lemma same_toc_run (trace : list (World * Event)) (st : State) :
  same_toc st (run trace st).
Proof.
  revert st. induction trace as [|[w e] rest IH]; intros st; cbn [run].
  - apply same_toc_refl.
  - eapply same_toc_trans; [apply same_toc_handle|apply IH].
Qed.

Lemma link_of_item_same (st st' : State) (link : nat) :
  same_toc st st' -> link_of_item st link -> link_of_item st' link.
Proof.
  intros [Hi Hh] (item & H1 & H2 & H3 & H4). exists item.
  rewrite Hi, Hh. repeat split; assumption.
Qed.

End TocFrame.

(** * The table of contents manager: programmatic scrolls *)

Module TocScroll.
Import JS Toc TocSpec.

(** ** What the helpers leave alone *)

Lemma update_link_frame (f : Link -> Link) (link : nat) (st : State) :
  let st' := update_link f link st in
  tocItems st' = tocItems st /\ isScrolling st' = isScrolling st
  /\ lastScrollTimestamp st' = lastScrollTimestamp st
  /\ isMobile st' = isMobile st /\ tocContainer st' = tocContainer st
  /\ currentActiveIndex st' = currentActiveIndex st
  /\ options st' = options st.
Proof. unfold update_link. destruct (tocNav st); cbn; repeat split. Qed.

Lemma starts_scroll_app (a b : list Effect) :
  starts_scroll (a ++ b) = starts_scroll a || starts_scroll b.
Proof. apply existsb_app. Qed.

Lemma updateActiveLinks_quiet (w : World) (idx : Z) (st : State) :
  starts_scroll (snd (updateActiveLinks w idx st)) = false.
Proof.
  unfold updateActiveLinks. destruct (tocNav st); cbn; [|reflexivity].
  case_match; reflexivity.
Qed.

Lemma onScrollComplete_frame (w : World) (link : nat) (st : State) :
  let r := onScrollComplete w link st in
  starts_scroll (snd r) = false
  /\ tocItems (fst r) = tocItems st
  /\ lastScrollTimestamp (fst r) = lastScrollTimestamp st
  /\ isScrolling (fst r) = false
  /\ isMobile (fst r) = isMobile st
  /\ tocContainer (fst r) = tocContainer st.
Proof.
  cbn zeta. unfold onScrollComplete.
  set (st1 := update_link (set_navigating false) link (set_isScrolling false st)).
  destruct (update_link_frame (set_navigating false) link
              (set_isScrolling false st))
    as (Hi & Hs & Hl & Hm & Hc & _). fold st1 in Hi, Hs, Hl, Hm, Hc.
  cbn in Hi, Hs, Hl, Hm, Hc.
  assert (Hann : starts_scroll
            (if isMobile st1 then [Announce "Navigated to section"] else [])
          = false) by (destruct (isMobile st1); reflexivity).
  destruct (option_map (drop 1) (link_href link st1)) as [[|c t]|];
    try (cbn [fst snd]; repeat split; assumption).
  destruct (negb (findIndex (c :: t) (tocItems st1) =? -1)
            && negb (findIndex (c :: t) (tocItems st1)
                     =? currentActiveIndex st1));
    try (cbn [fst snd]; repeat split; assumption).
  pose proof (updateActiveLinks_quiet w (findIndex (c :: t) (tocItems st1)) st1)
    as Hq.
  destruct (TocTracking.updateActiveLinks_keeps w
              (findIndex (c :: t) (tocItems st1)) st1)
    as (Hi' & Hs' & Hl' & Hm' & Hc' & _).
  destruct (updateActiveLinks w (findIndex (c :: t) (tocItems st1)) st1)
    as [st2 eff]. cbn [fst snd] in *.
  rewrite starts_scroll_app, Hann, Hq.
  repeat split; cbn; congruence.
Qed.

Lemma toggleCollapse_quiet (w : World) (st : State) :
  starts_scroll (snd (toggleCollapse w st)) = false.
Proof.
  unfold toggleCollapse. destruct (tocContainer st); [|reflexivity].
  cbn. destruct (canVibrate w); reflexivity.
Qed.

(** ** [scrollToElement] *)

Lemma scrollToElement_suppressed (w : World) (target link : nat) (st : State) :
  isScrolling st = true ->
  now w - lastScrollTimestamp st <= 3000 ->
  scrollToElement w target link st = (st, []).
Proof.
  intros Hs Ht. unfold scrollToElement. rewrite Hs.
  destruct (Z.ltb_spec 3000 (now w - lastScrollTimestamp st)); [lia|].
  cbn. rewrite Hs. reflexivity.
Qed.

Lemma scrollToElement_starts (w : World) (target link : nat) (st : State) :
  isScrolling st = false \/ 3000 < now w - lastScrollTimestamp st ->
  let r := scrollToElement w target link st in
  starts_scroll (snd r) = true
  /\ In (SetTimeout CbSafetyReset 3000) (snd r)
  /\ lastScrollTimestamp (fst r) = now w
  /\ (isMobile st = true \/ smoothScroll w = true -> isScrolling (fst r) = true).
Proof.
  intros Hfree. cbn zeta. unfold scrollToElement.
  set (st0 := if isScrolling st && (3000 <? now w - lastScrollTimestamp st)
              then set_isScrolling false st else st).
  assert (H0 : isScrolling st0 = false /\ isMobile st0 = isMobile st).
  { subst st0. destruct (isScrolling st) eqn:Hs; cbn.
    - destruct Hfree as [|Hlt]; [discriminate|].
      destruct (Z.ltb_spec 3000 (now w - lastScrollTimestamp st)); [|lia].
      split; reflexivity.
    - split; [exact Hs|reflexivity]. }
  destruct H0 as [Hs0 Hm0]. rewrite Hs0.
  cbn [isMobile set_lastScrollTimestamp set_isScrolling]. rewrite Hm0.
  destruct (isMobile st) eqn:Hm.
  - cbn. repeat split; auto.
  - destruct (smoothScroll w) eqn:Hsm.
    + cbn [fst snd]. repeat split.
      * left. reflexivity.
      * destruct (update_link_frame (set_navigating true) link
                    (set_lastScrollTimestamp (now w) (set_isScrolling true st0)))
          as (_ & _ & Hl & _). exact Hl.
      * intros _.
        destruct (update_link_frame (set_navigating true) link
                    (set_lastScrollTimestamp (now w) (set_isScrolling true st0)))
          as (_ & Hs & _). exact Hs.
    + set (st1 := update_link (set_navigating true) link
                    (set_lastScrollTimestamp (now w) (set_isScrolling true st0))).
      destruct (onScrollComplete_frame w link st1) as (_ & _ & Hl & _).
      destruct (onScrollComplete w link st1) as [st2 eff]. cbn [fst snd] in *.
      repeat split.
      * left. reflexivity.
      * rewrite Hl.
        destruct (update_link_frame (set_navigating true) link
                    (set_lastScrollTimestamp (now w) (set_isScrolling true st0)))
          as (_ & _ & Hl' & _). exact Hl'.
      * intros [|]; discriminate.
Qed.

(** While a scroll is in flight and young, no event starts another. *)
Lemma handle_suppressed (w : World) (e : Event) (st : State) :
  isScrolling st = true ->
  now w - lastScrollTimestamp st <= 3000 ->
  starts_scroll (snd (handle w e st)) = false.
Proof.
  intros Hs Ht. destruct e as [| |key|link|cb|link|x y|x y| | |key]; cbn [handle].
  - unfold updateActiveTOC. rewrite Hs, orb_true_r. reflexivity.
  - reflexivity.
  - repeat case_match; reflexivity.
  - unfold navClick. destruct (link_href link st) as [[|c t]|]; try reflexivity.
    destruct (c =? 35)%N; [|reflexivity].
    destruct (getElementById w t) as [target|]; [|reflexivity].
    destruct (update_link_frame (set_navigating true) link st)
      as (_ & Hs' & Hl' & Hm' & Hc' & _).
    set (st1 := update_link (set_navigating true) link st) in *.
    rewrite (scrollToElement_suppressed w target link st1)
      by (rewrite ?Hs', ?Hl'; assumption).
    destruct (isMobile st1); [destruct (tocContainer st1)|]; reflexivity.
  - destruct cb as [target link| |offset link|pos link|last count link];
      cbn [runCallback].
    + rewrite scrollToElement_suppressed by assumption. reflexivity.
    + reflexivity.
    + destruct (onScrollComplete_frame w link st) as (Hq & _).
      destruct (onScrollComplete w link st). exact Hq.
    + destruct (onScrollComplete_frame w link st) as (Hq & _).
      destruct (onScrollComplete w link st).
      case_match; [exact Hq|reflexivity].
    + destruct (onScrollComplete_frame w link st) as (Hq & _).
      repeat case_match; first [exact Hq|reflexivity].
  - apply onScrollComplete_frame.
  - unfold handleTouchStart, with_toggle. repeat case_match; reflexivity.
  - unfold handleTouchMove, with_toggle. repeat case_match; reflexivity.
  - unfold handleTouchEnd, with_toggle.
    pose proof (toggleCollapse_quiet w st).
    destruct (toggleCollapse w st). repeat case_match; first [assumption|reflexivity].
  - unfold headerClick, with_toggle.
    pose proof (toggleCollapse_quiet w st).
    destruct (toggleCollapse w st). repeat case_match; first [assumption|reflexivity].
  - unfold headerKeydown, with_toggle.
    pose proof (toggleCollapse_quiet w st).
    destruct (toggleCollapse w st). repeat case_match; first [assumption|reflexivity].
Qed.

Lemma click_target_inv (w : World) (link : nat) (st : State) (target : nat) :
  click_target w link st = Some target ->
  exists t, link_href link st = Some (35%N :: t)
            /\ getElementById w t = Some target.
Proof.
  unfold click_target. destruct (link_href link st) as [[|c t]|]; try discriminate.
  destruct (N.eqb_spec c 35); [|discriminate].
  intros H. exists t. subst c. split; [reflexivity|exact H].
Qed.



End TocScroll.

(** * The table of contents manager: clicks on the links *)

Module TocClick.
Import JS Toc TocSpec TocFrame.

Lemma findIndex_first (items : list TocItem) :
  forall (k : nat) (item : TocItem) (i : Z),
    items !! k = Some item ->
    (forall j item', items !! j = Some item' -> (j < k)%nat ->
       id item' <> id item) ->
    findIndex_from (id item) items i = i + Z.of_nat k.
Proof.
  induction items as [|it rest IH]; intros k item i Hk Hfirst;
    [destruct k; discriminate|].
  destruct k as [|k]; cbn [findIndex_from].
  - injection Hk as ->. rewrite bool_decide_eq_true_2 by reflexivity. lia.
  - rewrite bool_decide_eq_false_2
      by (apply (Hfirst O it); [reflexivity|lia]).
    rewrite (IH k item (i + 1) Hk); [lia|].
    intros j item' Hj Hlt. apply (Hfirst (S j) item' Hj). lia.
Qed.

Lemma onScrollComplete_marks (w : World) (st : State) (link : nat) :
  link_of_item st link ->
  let r := onScrollComplete w link st in
  currentActiveIndex (fst r) = Z.of_nat link
  /\ (currentActiveIndex st <> Z.of_nat link ->
      forall nav, tocNav (fst r) = Some nav ->
      forall j l, links nav !! j = Some l -> active l = bool_decide (j = link)).
Proof.
  intros (item & Hitem & Hhref & Hid & Hfirst). cbn zeta.
  unfold onScrollComplete.
  set (st1 := update_link (set_navigating false) link (set_isScrolling false st)).
  assert (H1 : same_toc st st1).
  { eapply same_toc_trans;
      [|apply same_toc_update_link; intros; reflexivity].
    apply same_toc_fields; reflexivity. }
  destruct H1 as [Hitems Hhrefs].
  assert (Hcur : currentActiveIndex st1 = currentActiveIndex st).
  { unfold st1, update_link. cbn. destruct (tocNav st); reflexivity. }
  rewrite Hhrefs, Hhref. cbn [option_map skipn].
  assert (Hidx : findIndex (id item) (tocItems st1) = Z.of_nat link).
  { unfold findIndex. rewrite Hitems.
    rewrite (findIndex_first (tocItems st) link item 0 Hitem); [lia|].
    intros j item' Hj Hlt. apply (Hfirst j item' Hj Hlt). }
  destruct (id item) as [|c t] eqn:Hidc; [congruence|].
  cbn [skipn]. rewrite Hidx, Hcur.
  destruct (Z.eqb_spec (Z.of_nat link) (-1)) as [|_]; [lia|]. cbn [negb andb].
  destruct (Z.eqb_spec (Z.of_nat link) (currentActiveIndex st)) as [Heq|Hne];
    cbn [negb].
  - cbn [fst]. split; [congruence|]. intros Hc. congruence.
  - pose proof (TocTracking.updateActiveLinks_marks w (Z.of_nat link) st1) as Hm.
    destruct (updateActiveLinks w (Z.of_nat link) st1) as [st2 eff].
    cbn [fst] in *. split; [reflexivity|].
    intros _ nav Hnav j l Hl. cbn in Hnav.
    rewrite (Hm nav Hnav j l Hl).
    destruct (Z.eqb_spec (Z.of_nat j) (Z.of_nat link)) as [E|E];
      [rewrite bool_decide_eq_true_2 by lia|rewrite bool_decide_eq_false_2 by lia];
      reflexivity.
Qed.

Lemma scrollToElement_arranges (w : World) (st : State) (link target : nat) :
  link_of_item st link ->
  isScrolling st = false \/ 3000 < now w - lastScrollTimestamp st ->
  let r := scrollToElement w target link st in
  if isMobile st then
    exists offset, In (SetTimeout (CbMobileAdjust offset link) 320) (snd r)
  else if smoothScroll w then
    In (if scrollEndEvent w then OnScrollEnd link
        else SetTimeout (CbCheckScroll (pageYOffset w) 0 link) 50) (snd r)
  else currentActiveIndex (fst r) = Z.of_nat link.
Proof.
  intros Hlink Hfree. cbn zeta. unfold scrollToElement.
  set (st0 := if isScrolling st && (3000 <? now w - lastScrollTimestamp st)
              then set_isScrolling false st else st).
  assert (H0 : isScrolling st0 = false /\ isMobile st0 = isMobile st
               /\ same_toc st st0).
  { subst st0. destruct (isScrolling st) eqn:Hs; cbn.
    - destruct Hfree as [|Hlt]; [discriminate|].
      destruct (Z.ltb_spec 3000 (now w - lastScrollTimestamp st)); [|lia].
      repeat split; apply same_toc_fields; reflexivity.
    - repeat split; try assumption; apply same_toc_refl. }
  destruct H0 as (Hs0 & Hm0 & Hsame0). rewrite Hs0.
  cbn [isMobile set_lastScrollTimestamp set_isScrolling]. rewrite Hm0.
  set (st2 := update_link (set_navigating true) link
                (set_lastScrollTimestamp (now w) (set_isScrolling true st0))).
  assert (Hsame2 : same_toc st st2).
  { eapply same_toc_trans; [exact Hsame0|].
    eapply same_toc_trans;
      [|apply same_toc_update_link; intros; reflexivity].
    apply same_toc_fields; reflexivity. }
  destruct (isMobile st).
  - eexists. cbn [snd]. right. right. left. reflexivity.
  - destruct (smoothScroll w).
    + cbn [snd]. right. right. right. left. reflexivity.
    + pose proof (onScrollComplete_marks w st2 link
                    (link_of_item_same st st2 link Hsame2 Hlink)) as [Hm2 _].
      destruct (onScrollComplete w link st2) as [st3 eff]. exact Hm2.
Qed.


Lemma example_link_of_item :
  link_of_item (TocExample.ready TocExample.desktop) 0.
Proof.
  eexists. split; [reflexivity|]. split; [reflexivity|].
  split; [discriminate|]. intros j item' _ Hlt. lia.
Qed.



End TocClick.

(** * The table of contents manager: the collapsible panel *)

Module TocMobile.
Import JS Toc TocSpec.

(** C4, amended.  On mobile, when the panel exists and has an [h3] header,
    [setupMobileInteraction] adds the [collapsed] class exactly when the
    list has more than 6 items or the viewport is at most 768 pixels wide;
    when neither holds, the panel is left as it was. *)
Theorem setupMobileInteraction_auto_collapse
  (w : World) (st : State) (c : Container) (h : Header) :
  tocContainer st = Some c ->
  header c = Some h ->
  isMobile st = true ->
  exists c',
    tocContainer (setupMobileInteraction w st) = Some c'
    /\ (auto_collapse_condition w st -> collapsed c' = true)
    /\ (~ auto_collapse_condition w st -> collapsed c' = collapsed c).
Proof.
  intros Hc Hh Hm. unfold setupMobileInteraction, auto_collapse_condition.
  rewrite Hc, Hh, Hm.
  destruct (Nat.ltb_spec 6 (length (tocItems st))) as [Hlen|Hlen];
    [|destruct (Z.leb_spec (innerWidth w) 768) as [Hw|Hw]]; cbn [orb].
  - eexists. split; [reflexivity|]. split; [reflexivity|].
    intros Hn. exfalso. apply Hn. left. exact Hlen.
  - eexists. split; [reflexivity|]. split; [reflexivity|].
    intros Hn. exfalso. apply Hn. right. exact Hw.
  - eexists. split; [reflexivity|]. split; [|reflexivity].
    intros [Hl|Hl]; lia.
Qed.

(** On the example page on a phone: the panel, open before, is collapsed
    by the set-up, the viewport being 390 pixels wide. *)
Lemma setupMobileInteraction_auto_collapse_witness :
  let w := TocExample.phone in
  let st := TocExample.fresh w in
  exists c',
    tocContainer (setupMobileInteraction w st) = Some c'
    /\ (auto_collapse_condition w st -> collapsed c' = true)
    /\ (~ auto_collapse_condition w st
        -> collapsed c' = collapsed TocExample.panel).
Proof.
  intros w st.
  exact (setupMobileInteraction_auto_collapse w st TocExample.panel
           {| toggle := None; ariaExpanded := None |}
           eq_refl eq_refl eq_refl).
Defined.

(** C4 as stated fails.  On a phone 390 pixels wide, with a panel that has
    no [h3] header, [setupMobileInteraction] returns at its second guard:
    the panel stays open, after the set-up alone and after the whole of
    [generateTOC]. *)
Lemma setup_without_header_not_collapsed :
  let w := TocExample.phone in
  let st := constructor no_options (Some TocExample.article)
              (Some TocExample.empty_nav)
              (Some TocExample.panel_without_header) w in
  isMobile st = true
  /\ innerWidth w <= 768
  /\ panel_collapsed st = Some false
  /\ panel_collapsed (setupMobileInteraction w st) = Some false
  /\ panel_collapsed (generateTOC w st) = Some false.
Proof. repeat split. vm_compute. discriminate. Qed.

(** ** The header's gestures *)

Lemma within_tapb_spec (start p : Z * Z) :
  within_tapb start p = true <-> within_tap start p.
Proof.
  unfold within_tapb, within_tap. rewrite andb_true_iff, !Z.leb_le.
  reflexivity.
Qed.

Lemma moves_keep_start (moves : list (Z * Z)) :
  forall st c h t,
    tocContainer st = Some c -> header c = Some h -> toggle h = Some t ->
    let st' := foldl (fun s p => fst (handleTouchMove p.1 p.2 s)) st moves in
    exists c' h' t',
      tocContainer st' = Some c' /\ header c' = Some h'
      /\ toggle h' = Some t'
      /\ collapsed c' = collapsed c
      /\ isTap t'
         = isTap t
           && forallb (within_tapb (touchStartX t, touchStartY t)) moves.
Proof.
  induction moves as [|[x y] rest IH]; intros st c h t Hc Hh Ht; cbn [foldl].
  - exists c, h, t. rewrite andb_true_r. repeat split; assumption.
  - cbn [fst snd]. unfold handleTouchMove at 2, with_toggle.
    rewrite Hc, Hh, Ht. cbn [forallb].
    destruct (within_tapb (touchStartX t, touchStartY t) (x, y)) eqn:Hw.
    + apply within_tapb_spec in Hw. destruct Hw as [Hx Hy]. cbn [fst snd] in *.
      destruct (Z.ltb_spec 10 (Z.abs (y - touchStartY t))); [lia|].
      destruct (Z.ltb_spec 10 (Z.abs (x - touchStartX t))); [lia|].
      cbn [orb fst andb]. exact (IH st c h t Hc Hh Ht).
    + assert (Hout : (10 <? Z.abs (y - touchStartY t))
                     || (10 <? Z.abs (x - touchStartX t)) = true).
      { unfold within_tapb in Hw. cbn [fst snd] in Hw.
        apply andb_false_iff in Hw. apply orb_true_iff.
        destruct Hw as [Hw|Hw]; apply Z.leb_gt in Hw;
          [right|left]; apply Z.ltb_lt; exact Hw. }
      rewrite Hout. cbn [fst].
      edestruct (IH (set_toggle {| touchStartY := touchStartY t;
                                   touchStartX := touchStartX t;
                                   isTap := false |} c h st))
        as (c' & h' & t' & H1 & H2 & H3 & H4 & H5);
        [reflexivity..|].
      exists c', h', t'. repeat split; try assumption.
      rewrite H5. cbn [isTap andb]. rewrite andb_false_r. reflexivity.
Qed.

Lemma gesture_collapsed (w : World) (st : State) (c : Container)
  (start : Z * Z) (moves : list (Z * Z)) :
  has_toggle st -> tocContainer st = Some c ->
  panel_collapsed (gesture w start moves st)
  = Some (if forallb (within_tapb start) moves then negb (collapsed c)
          else collapsed c).
Proof.
  intros (c0 & h & t & Hc0 & Hh & Ht) Hc. assert (c0 = c) by congruence.
  subst c0. unfold gesture. destruct start as [sx sy]. cbn [fst snd].
  set (st1 := fst (handleTouchStart sx sy st)).
  destruct (moves_keep_start moves st1 (set_header
              (Some {| toggle := Some {| touchStartY := sy;
                                         touchStartX := sx;
                                         isTap := true |};
                       ariaExpanded := ariaExpanded h |}) c)
              {| toggle := Some {| touchStartY := sy;
                                   touchStartX := sx; isTap := true |};
                 ariaExpanded := ariaExpanded h |}
              {| touchStartY := sy; touchStartX := sx;
                 isTap := true |})
    as (c' & h' & t' & H1 & H2 & H3 & H4 & H5); try reflexivity.
  { unfold st1, handleTouchStart, with_toggle. rewrite Hc, Hh, Ht.
    reflexivity. }
  cbn [touchStartX touchStartY isTap andb] in H5.
  cbn zeta in H1. set (st2 := foldl _ st1 moves) in *.
  cbn [fst snd] in H5.
  unfold handleTouchEnd, with_toggle, panel_collapsed.
  rewrite H1, H2, H3, H5.
  destruct (forallb (within_tapb (sx, sy)) moves).
  - unfold toggleCollapse. rewrite H1. cbn. rewrite H4.
    unfold set_collapsed, observe. cbn. rewrite H2, H3. cbn. reflexivity.
  - cbn. rewrite H1. cbn. rewrite H4. reflexivity.
Qed.

(** C5.  On a header that carries the listeners of [setupHeaderToggle]:
    a touch gesture toggles the collapsed state at its end when no move
    was more than 10 pixels away from the start on either axis, and leaves
    it alone when some move was; a keydown of Enter or Space toggles
    it. *)
Theorem header_gesture_toggles (w : World) (st : State) (c : Container)
  (start : Z * Z) (moves : list (Z * Z)) :
  has_toggle st ->
  tocContainer st = Some c ->
  (Forall (within_tap start) moves ->
   panel_collapsed (gesture w start moves st) = Some (negb (collapsed c)))
  /\ (Exists (fun p => ~ within_tap start p) moves ->
      panel_collapsed (gesture w start moves st) = Some (collapsed c))
  /\ (forall key, key = "Enter" \/ key = " " ->
      panel_collapsed (fst (headerKeydown w key st))
      = Some (negb (collapsed c))).
Proof.
  intros Htog Hc. pose proof (gesture_collapsed w st c start moves Htog Hc) as Hg.
  split; [|split].
  - intros Hall. rewrite Hg.
    replace (forallb (within_tapb start) moves) with true; [reflexivity|].
    symmetry. apply forallb_forall. intros p Hp.
    apply within_tapb_spec. rewrite Forall_forall in Hall. apply Hall.
    apply list_elem_of_In. exact Hp.
  - intros Hex. rewrite Hg.
    replace (forallb (within_tapb start) moves) with false; [reflexivity|].
    symmetry. apply not_true_is_false. intros Hall.
    rewrite Exists_exists in Hex. destruct Hex as (p & Hp & Hn). apply Hn.
    apply within_tapb_spec. rewrite forallb_forall in Hall. apply Hall.
    apply list_elem_of_In. exact Hp.
  - intros key Hkey. destruct Htog as (c0 & h & t & Hc0 & Hh & Ht).
    assert (c0 = c) by congruence. subst c0.
    unfold headerKeydown, with_toggle. rewrite Hc, Hh, Ht.
    replace (bool_decide (key = "Enter") || bool_decide (key = " "))
      with true
      by (destruct Hkey as [-> | ->]; reflexivity).
    unfold toggleCollapse, panel_collapsed. rewrite Hc. cbn.
    unfold set_collapsed, observe. cbn. rewrite Hh, Ht. reflexivity.
Qed.

(** On the example page on a phone, whose panel the set-up has collapsed:
    a tap that wanders by 3 and 10 pixels opens it, a swipe of 11 pixels
    leaves it collapsed, and Enter opens it. *)
Lemma header_gesture_toggles_witness :
  let w := TocExample.phone in
  let st := TocExample.ready w in
  has_toggle st
  /\ panel_collapsed st = Some true
  /\ panel_collapsed (gesture w (100, 40) [(103, 40); (100, 50)] st)
     = Some false
  /\ panel_collapsed (gesture w (100, 40) [(103, 40); (100, 51)] st)
     = Some true
  /\ panel_collapsed (fst (headerKeydown w "Enter" st)) = Some false.
Proof.
  intros w st.
  assert (Htog : has_toggle st) by (do 3 eexists; repeat split).
  pose (c := {| hidden := false; collapsed := true;
                header := Some {| toggle := Some {| touchStartY := 0;
                                                    touchStartX := 0;
                                                    isTap := true |};
                                  ariaExpanded := Some false |} |}).
  assert (Hc : tocContainer st = Some c) by reflexivity.
  split; [exact Htog|]. split; [reflexivity|].
  split; [|split].
  - apply (proj1 (header_gesture_toggles w st c (100, 40)
                    [(103, 40); (100, 50)] Htog Hc)).
    repeat constructor; cbn; lia.
  - apply (proj1 (proj2 (header_gesture_toggles w st c (100, 40)
                           [(103, 40); (100, 51)] Htog Hc))).
    right. left. unfold within_tap. cbn. lia.
  - apply (proj2 (proj2 (header_gesture_toggles w st c (100, 40) [] Htog Hc))).
    left. reflexivity.
Defined.

End TocMobile.

(** * The table of contents manager: generating the list *)

Module TocGeneration.
Import JS Toc TocSpec TocFrame.

Lemma test_stateless (re : RegExp) (s : jsstring) :
  stateless re -> test re s = (bool_decide (text_matches s re), re).
Proof.
  unfold stateless, test, text_matches. intros ->. cbn.
  destruct (re_exec re s 0); [rewrite bool_decide_eq_true_2 by eauto|
    rewrite bool_decide_eq_false_2 by (intros [? ?]; discriminate)];
    reflexivity.
Qed.

Lemma some_test_stateless (ps : list RegExp) (s : jsstring) :
  Forall stateless ps ->
  some_test ps s = (bool_decide (Exists (text_matches s) ps), ps).
Proof.
  induction 1 as [|re rest Hre Hrest IH]; cbn [some_test].
  - rewrite bool_decide_eq_false_2 by (intros H; inversion H). reflexivity.
  - rewrite (test_stateless re s Hre).
    destruct (decide (text_matches s re)) as [Hm|Hm].
    + rewrite (bool_decide_eq_true_2 _ Hm).
      rewrite bool_decide_eq_true_2 by (left; exact Hm). reflexivity.
    + rewrite (bool_decide_eq_false_2 _ Hm). rewrite IH.
      destruct (decide (Exists (text_matches s) rest)) as [He|He].
      * rewrite (bool_decide_eq_true_2 _ He).
        rewrite bool_decide_eq_true_2 by (right; exact He). reflexivity.
      * rewrite (bool_decide_eq_false_2 _ He).
        rewrite bool_decide_eq_false_2
          by (intros H; inversion H; subst; contradiction).
        reflexivity.
Qed.

Lemma truthy_spec (s : string) : truthy s = true <-> s <> EmptyString.
Proof.
  unfold truthy. destruct (decide (s = EmptyString)) as [->|Hne].
  - cbn. split; [discriminate|congruence].
  - rewrite bool_decide_eq_false_2 by exact Hne. cbn. tauto.
Qed.

Lemma existsb_Exists {A} (f : A -> bool) (l : list A) :
  existsb f l = true <-> Exists (fun x => f x = true) l.
Proof.
  rewrite existsb_exists, Exists_exists. split; intros (x & H1 & H2);
    exists x; (split; [apply list_elem_of_In; exact H1|exact H2]).
Qed.

Lemma closestWithAttribute_spec (el : Element) (a : string) :
  closestWithAttribute el a = true
  <-> a ∈ attributes el \/ Exists (fun attrs => a ∈ attrs) (ancestors el).
Proof.
  unfold closestWithAttribute, hasAttribute.
  rewrite orb_true_iff, bool_decide_eq_true, existsb_Exists.
  split; (intros [H|H]; [left; exact H|right]);
    (eapply Exists_impl; [exact H|]); intros x Hx;
    [apply bool_decide_eq_true in Hx|apply bool_decide_eq_true]; exact Hx.
Qed.

(** With stateless patterns, [shouldExcludeHeading] answers by the five
    reasons and leaves the patterns as they are. *)
Lemma shouldExcludeHeading_stateless (o : TableOfContentsOptions)
  (el : Element) :
  Forall stateless (excludeTextPatterns o) ->
  shouldExcludeHeading o el
  = (bool_decide (excluded_as_built o el), excludeTextPatterns o).
Proof.
  intros Hst. unfold shouldExcludeHeading.
  destruct (truthy (skipAttribute o) && hasAttribute el (skipAttribute o))
    eqn:H1.
  { rewrite bool_decide_eq_true_2; [reflexivity|]. left.
    apply andb_true_iff in H1. destruct H1 as [Ht Ha].
    split; [apply truthy_spec; exact Ht|apply bool_decide_eq_true in Ha; exact Ha]. }
  destruct (truthy (skipClass o) && classListContains el (skipClass o)) eqn:H2.
  { rewrite bool_decide_eq_true_2; [reflexivity|]. right. left.
    apply andb_true_iff in H2. destruct H2 as [Ht Ha].
    split; [apply truthy_spec; exact Ht|apply bool_decide_eq_true in Ha; exact Ha]. }
  destruct (truthy (skipContainerAttribute o)
            && closestWithAttribute el (skipContainerAttribute o)) eqn:H3.
  { rewrite bool_decide_eq_true_2; [reflexivity|]. right. right. left.
    apply andb_true_iff in H3. destruct H3 as [Ht Ha].
    split; [apply truthy_spec; exact Ht|apply closestWithAttribute_spec; exact Ha]. }
  destruct (existsb (fun sel : Selector => sel el) (excludeSelectors o)) eqn:H4.
  { rewrite bool_decide_eq_true_2; [reflexivity|]. right. right. right. left.
    apply existsb_Exists. exact H4. }
  rewrite (some_test_stateless _ _ Hst). f_equal.
  apply bool_decide_ext. unfold excluded_as_built. split.
  - intros H. right. right. right. right. exact H.
  - intros [[Ht Ha]|[[Ht Ha]|[[Ht Ha]|[H|H]]]]; [exfalso..|exact H].
    + apply truthy_spec in Ht. unfold hasAttribute in H1.
      rewrite Ht, (bool_decide_eq_true_2 _ Ha) in H1. discriminate.
    + apply truthy_spec in Ht. unfold classListContains in H2.
      rewrite Ht, (bool_decide_eq_true_2 _ Ha) in H2. discriminate.
    + apply truthy_spec in Ht. apply closestWithAttribute_spec in Ha.
      rewrite Ht, Ha in H3. discriminate.
    + apply existsb_Exists in H. rewrite H in H4. discriminate.
Qed.

Lemma set_excludeTextPatterns_same (o : TableOfContentsOptions) :
  set_excludeTextPatterns (excludeTextPatterns o) o = o.
Proof. destruct o; reflexivity. Qed.

Lemma kept_stateless (o : TableOfContentsOptions) (headings : list Element) :
  Forall stateless (excludeTextPatterns o) ->
  kept o headings = filter (fun h => ~ excluded_as_built o h) headings.
Proof.
  intros Hst. induction headings as [|h rest IH]; [reflexivity|].
  cbn [kept]. rewrite (shouldExcludeHeading_stateless o h Hst).
  rewrite set_excludeTextPatterns_same, IH.
  destruct (decide (excluded_as_built o h)) as [He|He].
  - rewrite (bool_decide_eq_true_2 _ He).
    rewrite filter_cons_False by tauto. reflexivity.
  - rewrite (bool_decide_eq_false_2 _ He).
    rewrite filter_cons_True by exact He. reflexivity.
Qed.

Lemma kept_sublist (headings : list Element) :
  forall o, sublist (kept o headings) headings.
Proof.
  induction headings as [|h rest IH]; intros o; cbn [kept]; [constructor|].
  destruct (shouldExcludeHeading o h) as [excluded patterns].
  destruct excluded; [apply sublist_cons|apply sublist_skip]; apply IH.
Qed.

(** The [forEach] appends the kept headings, in their order, and touches
    nothing of the panel. *)
Lemma forEachHeading_items (w : World) (headings : list Element) :
  forall index st fragment,
    let r := forEachHeading w headings index (st, fragment) in
    element <$> tocItems (fst r)
    = (element <$> tocItems st) ++ (node <$> kept (options st) headings)
    /\ tocContainer (fst r) = tocContainer st
    /\ isMobile (fst r) = isMobile st.
Proof.
  induction headings as [|h rest IH]; intros index st fragment.
  - cbn. rewrite app_nil_r. repeat split.
  - cbn [forEachHeading kept]. unfold generateHeading.
    destruct (shouldExcludeHeading (options st) h) as [excluded patterns].
    destruct excluded.
    + destruct (IH (S index)
                  (set_options (set_excludeTextPatterns patterns (options st)) st)
                  fragment) as (H1 & H2 & H3).
      cbn zeta in *. rewrite H1, H2, H3. repeat split.
    + destruct (bool_decide (el_id h = [])).
      * match goal with
        | |- context [forEachHeading w rest (S index) (?s, ?f)] =>
            destruct (IH (S index) s f) as (H1 & H2 & H3)
        end.
        cbn zeta in *. rewrite H1, H2, H3. cbn.
        rewrite fmap_app, <- app_assoc. repeat split.
      * match goal with
        | |- context [forEachHeading w rest (S index) (?s, ?f)] =>
            destruct (IH (S index) s f) as (H1 & H2 & H3)
        end.
        cbn zeta in *. rewrite H1, H2, H3. cbn.
        rewrite fmap_app, <- app_assoc. repeat split.
Qed.

Lemma setupMobileInteraction_tocItems (w : World) (st : State) :
  tocItems (setupMobileInteraction w st) = tocItems st.
Proof. apply same_toc_setupMobileInteraction. Qed.

(** What [generateTOC] makes of a page that has the three elements and at
    least one heading. *)
Lemma generateTOC_items (w : World) (st : State)
  (content : list Element) (nav : Nav) (cont : Container) :
  articleContent st = Some content ->
  tocNav st = Some nav ->
  tocContainer st = Some cont ->
  matched_headings (options st) content <> [] ->
  element <$> tocItems (generateTOC w st)
  = node <$> kept (options st) (matched_headings (options st) content).
Proof.
  intros Ha Hn Hc Hne. unfold generateTOC. rewrite Ha, Hn, Hc.
  fold (matched_headings (options st) content).
  destruct (matched_headings (options st) content) as [|h rest] eqn:Hm;
    [congruence|]. cbn [length Nat.eqb]. rewrite <- Hm.
  match goal with
  | |- context [forEachHeading w ?hs 0 (?s, ?f)] =>
      pose proof (forEachHeading_items w hs 0%nat s f) as (H1 & _);
      destruct (forEachHeading w hs 0 (s, f)) as [st1 fragment]
  end.
  cbn [fst] in H1. rewrite setupMobileInteraction_tocItems. exact H1.
Qed.




(** What the [g] flag does, for the record: a pattern that matches
    ["Intro"] anywhere and remembers where it stopped excludes the first
    of two headings of that text and lets the second through. *)
Lemma global_pattern_skips_every_other_heading :
  let intro := of_ascii "Intro" in
  let re := {| re_exec := fun s i =>
                 if bool_decide (s = intro) && (i =? 0)%nat
                 then Some 5%nat else None;
               re_global := true; re_sticky := false; lastIndex := 0 |} in
  let o := set_excludeTextPatterns [re] (merge_options no_options) in
  node <$> kept o [TocExample.h_intro; TocExample.h_intro] = [0%nat].
Proof. reflexivity. Qed.

(** C7, amended.  For a manager constructed on a page that has the
    article, the nav and the panel: after [generateTOC] the list holds
    exactly the matched headings for which [shouldExcludeHeading] answered
    no, in the order of the heading query, and no event handled afterwards
    changes the list. *)
Theorem tocItems_mirror_document_order (u : UserOptions)
  (content : list Element) (nav : Nav) (cont : Container) (w0 w : World) :
  let st0 := constructor u (Some content) (Some nav) (Some cont) w0 in
  let st := generateTOC w st0 in
  let headings := matched_headings (options st0) content in
  element <$> tocItems st = node <$> kept (options st0) headings
  /\ sublist (kept (options st0) headings) headings
  /\ forall trace, tocItems (run trace st) = tocItems st.
Proof.
  intros st0 st headings. split; [|split].
  - subst headings.
    destruct (matched_headings (options st0) content) as [|h rest] eqn:Hh.
    + subst st. unfold generateTOC.
      change (articleContent st0) with (Some content).
      change (tocNav st0) with (Some nav).
      change (tocContainer st0) with (Some cont). cbn iota.
      change (List.filter (default h2_h3 (headingSelector (options st0)))
                content)
        with (matched_headings (options st0) content).
      rewrite Hh. reflexivity.
    + rewrite <- Hh. apply (generateTOC_items w st0 content nav cont);
        try reflexivity.
      rewrite Hh. discriminate.
  - apply kept_sublist.
  - intros trace. apply same_toc_run.
Qed.

(** C7 as stated fails.  On the example page without the nav element,
    [generateTOC] returns at its first guard: two matched headings are not
    excluded, and the list is empty. *)
Lemma generateTOC_without_nav_leaves_list_empty :
  let w := TocExample.desktop in
  let st0 := constructor no_options (Some TocExample.article) None
               (Some TocExample.panel) w in
  node <$> kept (options st0)
             (matched_headings (options st0) TocExample.article)
  = [0; 1]%nat
  /\ tocItems (generateTOC w st0) = [].
Proof. split; reflexivity. Qed.

End TocGeneration.

(** * The scaffolding script *)

Module CliFacts.
Import Cli CliSpec.

(** C8: what the script does when a copy fails.  The machine
    [CliExample.copy_fails] answers 1 to the [cp -r] into [.vscode] and 0 to
    everything else.  [update] is called from the test of an [if], where
    [set -e] does not act, so the script reports the copy as done, goes on,
    writes the configuration and ends with status 0 without a line that
    mentions an error; the temporary directory is removed. *)
Lemma failed_copy_goes_unreported :
  status CliExample.copy_fails 0
    (CpR "/tmp/tmp.walle/.vscode" "/work/site/.vscode") = 1
  /\ match run_cli CliExample.copy_fails ["update"] with
     | Some (code, s) =>
         code = 0
         /\ existsb mentions_error (out s) = false
         /\ In " [INFO] Synchronized from /tmp/tmp.walle/.vscode to /work/site/.vscode."
              (out s)
         /\ temp_exists s = false
     | None => False
     end.
Proof.
  split; [reflexivity|]. vm_compute.
  split; [reflexivity|]. split; [reflexivity|]. split; [|reflexivity].
  do 2 right. left. reflexivity.
Qed.

(** The same for the [mkdir -p] of [init]: it fails, nothing looks at its
    status, and the run ends with status 0. *)
Lemma failed_mkdir_goes_unreported :
  status CliExample.mkdir_fails 5 (MkdirP "/work/new") = 1
  /\ match run_cli CliExample.mkdir_fails
             ["init"; "-n"; "blog"; "-d"; "/work/new"] with
     | Some (code, s) =>
         code = 0 /\ existsb mentions_error (out s) = false
     | None => False
     end.
Proof. split; [reflexivity|]. vm_compute. split; reflexivity. Qed.

(** A failure that the script does look at: when the clone fails, the run
    ends with status 1 after two lines that mention the error, and the
    temporary directory is removed. *)
Lemma failed_clone_is_reported :
  match run_cli CliExample.clone_fails ["init"; "-n"; "blog"] with
  | Some (code, s) =>
      code = 1
      /\ List.filter mentions_error (out s)
         = [" [ERROR] Failed to download the project from https://github.com/FabrizioCafolla/walle-design-system.";
            "[ERROR] in cli.sh at line 1 (error code 1)"]
      /\ temp_exists s = false
  | None => False
  end.
Proof. vm_compute. repeat split. Qed.

(** ** Reasoning about the shell *)

Section WithWorld.
Variable w : World.

(** [m], started in [s], either returns with [Q], or ends the script with
    a status that is not 0, or never returns. *)
Definition ok {A} (m : M A) (s : Sh) (Q : A -> Sh -> Prop) : Prop :=
  match m s with
  | Ret a s' => Q a s'
  | Exit c _ => c <> 0
  | Diverge _ => True
  end.

(** What most commands leave alone: the files written so far and the
    variables. *)
Definition frame (s s' : Sh) : Prop :=
  files s' = files s
  /\ TEMP_DIR s' = TEMP_DIR s
  /\ GITHUB_WALLE_VERSION_BRANCH s' = GITHUB_WALLE_VERSION_BRANCH s
  /\ GITHUB_WALLE_VERSION_SHA s' = GITHUB_WALLE_VERSION_SHA s
  /\ errexit_ignored s' = errexit_ignored s.

Definition framed {A} (m : M A) : Prop :=
  forall s, ok m s (fun _ s' => frame s s').

Ltac fr := unfold frame in *; cbn in *; intuition congruence.

Lemma frame_refl (s : Sh) : frame s s.
Proof. fr. Qed.

Lemma frame_trans (a b c : Sh) : frame a b -> frame b c -> frame a c.
Proof. fr. Qed.

Lemma ok_weaken {A} (m : M A) (s : Sh) (P Q : A -> Sh -> Prop) :
  ok m s P -> (forall a s', P a s' -> Q a s') -> ok m s Q.
Proof. unfold ok. destruct (m s); auto. Qed.

Lemma ok_bind {A B} (m : M A) (k : A -> M B) (s : Sh) (Q : B -> Sh -> Prop) :
  ok m s (fun a s' => ok (k a) s' Q) -> ok (bind m k) s Q.
Proof. unfold ok, bind. destruct (m s); auto. Qed.

Lemma ok_ret {A} (a : A) (s : Sh) (Q : A -> Sh -> Prop) :
  Q a s -> ok (ret a) s Q.
Proof. exact (fun H => H). Qed.

Lemma ok_get (s : Sh) (Q : Sh -> Sh -> Prop) : Q s s -> ok get s Q.
Proof. exact (fun H => H). Qed.

Lemma ok_modify (f : Sh -> Sh) (s : Sh) (Q : unit -> Sh -> Prop) :
  Q tt (f s) -> ok (modify f) s Q.
Proof. exact (fun H => H). Qed.

Lemma ok_simple (m : M Z) (s : Sh) (Q : Z -> Sh -> Prop) :
  ok m s Q -> ok (simple m) s Q.
Proof.
  unfold ok, simple, bind, get. destruct (m s) as [c s'| |]; auto.
  destruct (Z.eqb_spec c 0); cbn; [auto|].
  destruct (errexit_ignored s'); cbn; auto.
Qed.

Lemma ok_ignoring {A} (m : M A) (s : Sh) (Q : A -> Sh -> Prop) :
  ok m (with_errexit_ignored true s)
    (fun a s' => Q a (with_errexit_ignored (errexit_ignored s) s')) ->
  ok (ignoring m) s Q.
Proof.
  unfold ok, ignoring, bind, get, modify. cbn.
  destruct (m (with_errexit_ignored true s)); auto.
Qed.

Lemma ok_print_error {A} (msg : string) (s : Sh) (Q : A -> Sh -> Prop) :
  ok (print_error msg) s Q.
Proof. unfold ok. cbn. discriminate. Qed.

Lemma ok_shift2_fails {A} (s : Sh) (Q : A -> Sh -> Prop) :
  ok shift2_fails s Q.
Proof.
  unfold ok, shift2_fails, simple, bind, get, ret. cbn.
  destruct (errexit_ignored s); cbn; [exact I|discriminate].
Qed.

Lemma ok_echo (line : string) (s : Sh) (Q : Z -> Sh -> Prop) :
  Q 0 (with_out (out s ++ [line]) s) -> ok (echo line) s Q.
Proof. exact (fun H => H). Qed.

(** The effect of starting a program. *)
Definition started (cmd : Cmd) (s s' : Sh) : Prop :=
  asked s' = S (asked s)
  /\ TEMP_DIR s' = TEMP_DIR s
  /\ GITHUB_WALLE_VERSION_BRANCH s' = GITHUB_WALLE_VERSION_BRANCH s
  /\ GITHUB_WALLE_VERSION_SHA s' = GITHUB_WALLE_VERSION_SHA s
  /\ errexit_ignored s' = errexit_ignored s
  /\ files s'
     = match cmd with
       | WriteFile path content =>
           if status w (asked s) cmd =? 0
           then <[path := content]> (files s) else files s
       | _ => files s
       end.

Lemma start_spec (cmd : Cmd) (s : Sh) :
  exists s', start w cmd s
             = Ret (status w (asked s) cmd, stdout w (asked s) cmd) s'
             /\ started cmd s s'.
Proof.
  unfold start. eexists. split; [reflexivity|]. unfold started.
  destruct (status w (asked s) cmd =? 0); [|destruct cmd; repeat split].
  destruct cmd; cbn; repeat split;
    destruct (bool_decide _); repeat split.
Qed.

Lemma ok_start (cmd : Cmd) (s : Sh) (Q : Z * string -> Sh -> Prop) :
  (forall s', started cmd s s' ->
     Q (status w (asked s) cmd, stdout w (asked s) cmd) s') ->
  ok (start w cmd) s Q.
Proof.
  intros H. destruct (start_spec cmd s) as (s' & Hs & Hst).
  unfold ok. rewrite Hs. apply H. exact Hst.
Qed.

Lemma ok_exec (cmd : Cmd) (s : Sh) (Q : Z -> Sh -> Prop) :
  (forall s', started cmd s s' -> Q (status w (asked s) cmd) s') ->
  ok (exec w cmd) s Q.
Proof.
  intros H. unfold exec. apply ok_simple, ok_bind, ok_start.
  intros s' Hs. apply ok_ret. cbn. apply H. exact Hs.
Qed.

Lemma ok_capture (cmd : Cmd) (s : Sh) (Q : string -> Sh -> Prop) :
  (forall s', started cmd s s' -> Q (stdout w (asked s) cmd) s') ->
  ok (capture w cmd) s Q.
Proof.
  intros H. unfold capture. apply ok_bind, ok_start. intros s' Hs.
  apply ok_bind, ok_simple, ok_ret, ok_ret. cbn. apply H. exact Hs.
Qed.

Lemma ok_subst (cmd : Cmd) (s : Sh) (Q : string -> Sh -> Prop) :
  (forall s', started cmd s s' -> Q (stdout w (asked s) cmd) s') ->
  ok (subst w cmd) s Q.
Proof.
  intros H. unfold subst. apply ok_bind, ok_start. intros s' Hs.
  apply ok_ret. cbn. apply H. exact Hs.
Qed.

Lemma ok_test_d (path : string) (s : Sh) (Q : bool -> Sh -> Prop) :
  (forall b, Q b (with_asked (S (asked s)) s)) -> ok (test_d w path) s Q.
Proof. intros H. unfold ok, test_d. apply H. Qed.

Lemma ok_test_f (path : string) (s : Sh) (Q : bool -> Sh -> Prop) :
  (forall b, Q b (with_asked (S (asked s)) s)) -> ok (test_f w path) s Q.
Proof. intros H. unfold ok, test_f. apply H. Qed.

(** ** Commands that keep the frame *)

Definition not_a_write (cmd : Cmd) : Prop :=
  match cmd with WriteFile _ _ => False | _ => True end.

Lemma started_frame (cmd : Cmd) (s s' : Sh) :
  not_a_write cmd -> started cmd s s' -> frame s s'.
Proof. intros Hn (_ & H1 & H2 & H3 & H4 & H5). destruct cmd; try easy; fr. Qed.

Lemma framed_ret {A} (a : A) : framed (ret a).
Proof. intros s. apply frame_refl. Qed.

Lemma framed_bind {A B} (m : M A) (k : A -> M B) :
  framed m -> (forall a, framed (k a)) -> framed (bind m k).
Proof.
  intros Hm Hk s. apply ok_bind. eapply ok_weaken; [apply Hm|].
  intros a s' Hf. eapply ok_weaken; [apply Hk|].
  intros b s'' Hf'. cbn in *. eapply frame_trans; eassumption.
Qed.

Lemma framed_simple (m : M Z) : framed m -> framed (simple m).
Proof. intros Hm s. apply ok_simple, Hm. Qed.

Lemma framed_ignoring {A} (m : M A) : framed m -> framed (ignoring m).
Proof.
  intros Hm s. apply ok_ignoring. eapply ok_weaken; [apply Hm|].
  intros a s' Hf. fr.
Qed.

Lemma framed_print_error {A} (msg : string) : framed (@print_error A msg).
Proof. intros s. apply ok_print_error. Qed.

Lemma framed_echo (line : string) : framed (echo line).
Proof. intros s. apply ok_echo. fr. Qed.

Lemma framed_print_info (msg : string) : framed (print_info msg).
Proof. apply framed_echo. Qed.

Lemma framed_exec (cmd : Cmd) : not_a_write cmd -> framed (exec w cmd).
Proof.
  intros Hn s. apply ok_exec. intros s'. apply started_frame. exact Hn.
Qed.

Lemma framed_capture (cmd : Cmd) : not_a_write cmd -> framed (capture w cmd).
Proof.
  intros Hn s. apply ok_capture. intros s'. apply started_frame. exact Hn.
Qed.

Lemma framed_subst (cmd : Cmd) : not_a_write cmd -> framed (subst w cmd).
Proof.
  intros Hn s. apply ok_subst. intros s'. apply started_frame. exact Hn.
Qed.

Lemma framed_test_d (path : string) : framed (test_d w path).
Proof. intros s. apply ok_test_d. intros _. fr. Qed.

Lemma framed_test_f (path : string) : framed (test_f w path).
Proof. intros s. apply ok_test_f. intros _. fr. Qed.

Lemma framed_get : framed get.
Proof. intros s. apply frame_refl. Qed.

Lemma framed_if {A} (b : bool) (m1 m2 : M A) :
  framed m1 -> framed m2 -> framed (if b then m1 else m2).
Proof. destruct b; auto. Qed.

Ltac framed_auto :=
  repeat first
    [ apply framed_ret | apply framed_print_error | apply framed_print_info
    | apply framed_echo | apply framed_test_d | apply framed_test_f
    | apply framed_get
    | apply framed_exec; exact I | apply framed_capture; exact I
    | apply framed_subst; exact I
    | apply framed_simple | apply framed_ignoring | apply framed_if
    | apply framed_bind | intro ].

Lemma framed_sync_files (a b : string) : framed (sync_files w a b).
Proof. unfold sync_files. framed_auto. Qed.

Lemma framed_sync_walle_files (a b : string) : framed (sync_walle_files w a b).
Proof.
  unfold sync_walle_files.
  repeat first [ apply framed_sync_files | apply framed_simple
               | apply framed_bind | intro ].
Qed.

Lemma framed_usage_init : framed (usage_init w).
Proof. unfold usage_init. framed_auto. Qed.

Lemma framed_usage_update : framed (usage_update w).
Proof. unfold usage_update. framed_auto. Qed.

Lemma framed_catch (code : Z) : framed (catch w code).
Proof. unfold catch. framed_auto. Qed.

Lemma ok_framed_bind {A B} (m : M A) (k : A -> M B) (s : Sh)
  (Q : B -> Sh -> Prop) :
  framed m -> (forall a s', frame s s' -> ok (k a) s' Q) ->
  ok (bind m k) s Q.
Proof.
  intros Hm Hk. apply ok_bind. eapply ok_weaken; [apply Hm|]. exact Hk.
Qed.

(** [if b then print_error msg else ret 0], then the rest. *)
Lemma ok_guard {B} (b : bool) (msg : string) (k : M B) (s : Sh)
  (Q : B -> Sh -> Prop) :
  (b = false -> ok k s Q) ->
  ok (bind (if b then print_error msg else ret 0) (fun _ => k)) s Q.
Proof.
  intros H. destruct b; [apply ok_bind, ok_print_error|].
  apply ok_bind, ok_ret, H. reflexivity.
Qed.

(** ** The loops over the arguments *)

Definition no_help (args : list string) : Prop :=
  Forall (fun a => is_help a = false) args.

Lemma main_args_ok (argv : list string) :
  forall command rest s,
    errexit_ignored s = false ->
    ok (main_args argv command rest) s
      (fun x s' => main_parse argv command rest = Some x /\ s' = s).
Proof.
  induction argv as [|a argv IH]; intros command rest s He;
    cbn [main_args main_parse].
  - split; reflexivity.
  - destruct (bool_decide (a = "init")); [apply IH; exact He|].
    destruct (bool_decide (a = "update")); [apply IH; exact He|].
    unfold is_help. destruct (is_flag "-h" "--help" a); [|apply IH; exact He].
    unfold ok, bind, simple, get, ret, exit_. cbn. rewrite He. cbn.
    discriminate.
Qed.

Lemma main_parse_no_help (argv : list string) :
  forall command rest command' args,
    main_parse argv command rest = Some (command', args) ->
    no_help rest -> no_help args.
Proof.
  induction argv as [|a argv IH]; intros command rest command' args;
    cbn [main_parse].
  - intros [= _ <-]. exact (fun H => H).
  - destruct (bool_decide (a = "init")); [apply IH|].
    destruct (bool_decide (a = "update")); [apply IH|].
    destruct (is_help a) eqn:Ha; [discriminate|].
    intros Hp Hr. apply (IH _ _ _ _ Hp).
    apply Forall_app. split; [exact Hr|]. repeat constructor. exact Ha.
Qed.

Lemma init_args_ok (args : list string) :
  forall name dir s,
    no_help args ->
    ok (init_args w args name dir) s
      (fun x s' => init_parse args name dir = Some x /\ s' = s).
Proof.
  assert (H : (forall name dir s, no_help args ->
                 ok (init_args w args name dir) s
                   (fun x s' => init_parse args name dir = Some x /\ s' = s))
              /\ (forall a name dir s, no_help (a :: args) ->
                    ok (init_args w (a :: args) name dir) s
                      (fun x s' => init_parse (a :: args) name dir = Some x
                                   /\ s' = s))).
  { induction args as [|v rest [IH1 IH2]].
    - split.
      + intros name dir s _. split; reflexivity.
      + intros a name dir s Hn. cbn [init_args init_parse].
        inversion Hn as [|? ? Ha _]; subst. unfold is_help in Ha.
        destruct (is_flag "-n" "--project-name" a); [apply ok_shift2_fails|].
        destruct (is_flag "-d" "--dir-path" a); [apply ok_shift2_fails|].
        rewrite Ha. apply ok_framed_bind; [apply framed_usage_init|].
        intros. apply ok_print_error.
    - split; [exact (IH2 v)|].
      intros a name dir s Hn. cbn [init_args init_parse].
      inversion Hn as [|? ? Ha Hn']; subst.
      inversion Hn' as [|? ? _ Hn'']; subst. unfold is_help in Ha.
      destruct (is_flag "-n" "--project-name" a); [apply IH1; exact Hn''|].
      destruct (is_flag "-d" "--dir-path" a); [apply IH1; exact Hn''|].
      rewrite Ha. apply ok_framed_bind; [apply framed_usage_init|].
      intros. apply ok_print_error. }
  exact (proj1 H).
Qed.

(** The state after the loop of [update]: only the branch may differ. *)
Definition branch_set (b : string) (s s' : Sh) : Prop :=
  files s' = files s /\ TEMP_DIR s' = TEMP_DIR s
  /\ GITHUB_WALLE_VERSION_SHA s' = GITHUB_WALLE_VERSION_SHA s
  /\ errexit_ignored s' = errexit_ignored s
  /\ GITHUB_WALLE_VERSION_BRANCH s' = b.

Lemma update_args_ok (args : list string) :
  forall path s,
    no_help args ->
    ok (update_args w args path) s
      (fun path' s' =>
         exists b,
           update_parse args (GITHUB_WALLE_VERSION_BRANCH s) path
           = Some (b, path')
           /\ branch_set b s s').
Proof.
  assert (H : (forall path s, no_help args ->
                 ok (update_args w args path) s
                   (fun path' s' => exists b,
                      update_parse args (GITHUB_WALLE_VERSION_BRANCH s) path
                      = Some (b, path') /\ branch_set b s s'))
              /\ (forall a path s, no_help (a :: args) ->
                    ok (update_args w (a :: args) path) s
                      (fun path' s' => exists b,
                         update_parse (a :: args)
                           (GITHUB_WALLE_VERSION_BRANCH s) path
                         = Some (b, path') /\ branch_set b s s'))).
  { induction args as [|v rest [IH1 IH2]].
    - split.
      + intros path s _. eexists. split; [reflexivity|]. repeat split.
      + intros a path s Hn. cbn [update_args update_parse].
        inversion Hn as [|? ? Ha _]; subst. unfold is_help in Ha.
        destruct (is_flag "-w" "--walle-version" a).
        { apply ok_bind, ok_modify, ok_shift2_fails. }
        destruct (is_flag "-p" "--project-path" a); [apply ok_shift2_fails|].
        rewrite Ha. apply ok_framed_bind; [apply framed_usage_update|].
        intros. apply ok_print_error.
    - split; [exact (IH2 v)|].
      intros a path s Hn. cbn [update_args update_parse].
      inversion Hn as [|? ? Ha Hn']; subst.
      inversion Hn' as [|? ? _ Hn'']; subst. unfold is_help in Ha.
      destruct (is_flag "-w" "--walle-version" a).
      { apply ok_bind, ok_modify.
        eapply ok_weaken; [apply (IH1 path (with_BRANCH v s) Hn'')|].
        intros path' s' (b & Hb & Hs). exists b. split; [exact Hb|].
        unfold branch_set in *. cbn in Hs. exact Hs. }
      destruct (is_flag "-p" "--project-path" a); [apply IH1; exact Hn''|].
      rewrite Ha. apply ok_framed_bind; [apply framed_usage_update|].
      intros. apply ok_print_error. }
  exact (proj1 H).
Qed.

(** ** The functions that do the work *)

Lemma download_project_ok (dir version : string) (s : Sh) :
  ok (download_project w dir version) s
    (fun _ s' =>
       files s' = files s /\ TEMP_DIR s' = TEMP_DIR s
       /\ errexit_ignored s' = errexit_ignored s
       /\ exists m, GITHUB_WALLE_VERSION_SHA s' = stdout w m GitRevParse).
Proof.
  unfold download_project. apply ok_guard. intros _.
  apply ok_framed_bind; [apply framed_exec; exact I|]. intros c s1 H1.
  apply ok_guard. intros _.
  apply ok_framed_bind; [apply framed_exec; exact I|]. intros ? s2 H2.
  apply ok_bind, ok_capture. intros s3 H3.
  apply ok_bind, ok_modify.
  eapply ok_weaken; [apply framed_exec; exact I|]. intros c4 s4 H4.
  pose proof (started_frame GitRevParse s2 s3 I H3) as H3'.
  unfold frame in *. cbn in H4.
  repeat split; try (intuition congruence).
  exists (asked s2). intuition congruence.
Qed.

Lemma create_config_file_ok (name dir : string) (version : option string)
  (s : Sh) :
  ok (create_config_file w name dir version) s
    (fun _ s' =>
       TEMP_DIR s' = TEMP_DIR s /\ errexit_ignored s' = errexit_ignored s
       /\ exists n,
            files s'
            = <[config_path dir
                := config_json name (default "main" version)
                     (stdout w n Date)]> (files s)).
Proof.
  unfold create_config_file. apply ok_bind, ok_subst. intros s1 H1.
  apply ok_bind, ok_ignoring, ok_exec. intros s2 H2.
  apply ok_guard. intros Hc. apply negb_false_iff in Hc.
  eapply ok_weaken; [apply framed_print_info|]. intros ? s3 H3.
  destruct H1 as (_ & H1a & _ & _ & H1b & H1c).
  destruct H2 as (_ & H2a & _ & _ & H2b & H2c).
  cbn in H2a, H2b, H2c, Hc. rewrite Hc in H2c.
  unfold frame in H3. cbn in H3.
  destruct H3 as (H3a & H3b & _ & _ & H3c).
  split; [congruence|]. split; [congruence|].
  exists (asked s). rewrite H3a, H2c, H1c. reflexivity.
Qed.

(** What [init] has done when it returns. *)
Definition init_done (args : list string) (s s' : Sh) : Prop :=
  TEMP_DIR s' = TEMP_DIR s /\ errexit_ignored s' = errexit_ignored s
  /\ exists p name dir n,
       init_parse args EmptyString (stdout w p Pwd) = Some (name, dir)
       /\ name <> EmptyString
       /\ files s' !! config_path (dir +:+ "/" +:+ name)
          = Some (config_json name "main" (stdout w n Date)).

Lemma init_ok (args : list string) (s : Sh) :
  no_help args -> ok (init w args) s (fun _ s' => init_done args s s').
Proof.
  intros Hn. unfold init. apply ok_bind, ok_capture. intros s1 H1.
  pose proof (started_frame Pwd s s1 I H1) as F1.
  apply ok_bind. eapply ok_weaken; [apply init_args_ok; exact Hn|].
  intros [name dir] s2 [Hparse ->]. apply ok_guard. intros Hname.
  apply ok_framed_bind; [apply framed_test_d|]. intros isdir s3 F3.
  apply ok_framed_bind;
    [apply framed_if; [apply framed_exec; exact I|apply framed_ret]|].
  intros ? s4 F4.
  apply ok_framed_bind; [apply framed_print_info|]. intros ? s5 F5.
  apply ok_bind, ok_simple.
  eapply ok_weaken; [apply download_project_ok|].
  intros ? s6 (H6a & H6b & H6c & _).
  apply ok_bind, ok_simple.
  eapply ok_weaken; [apply create_config_file_ok|].
  intros ? s7 (H7a & H7b & n & H7c).
  eapply ok_weaken; [apply framed_print_info|]. intros ? s8 F8.
  unfold init_done, frame in *.
  split; [intuition congruence|]. split; [intuition congruence|].
  exists (asked s), name, dir, n. split; [exact Hparse|]. split.
  - unfold is_empty in Hname. apply bool_decide_eq_false in Hname. exact Hname.
  - destruct F8 as (-> & _). rewrite H7c. apply lookup_insert_eq.
Qed.

(** What [update] has done when it returns. *)
Definition update_done (args : list string) (s s' : Sh) : Prop :=
  TEMP_DIR s' = TEMP_DIR s /\ errexit_ignored s' = errexit_ignored s
  /\ exists p branch path k m n,
       update_parse args (GITHUB_WALLE_VERSION_BRANCH s) (stdout w p Pwd)
       = Some (branch, path)
       /\ branch <> EmptyString
       /\ files s' !! config_path path
          = Some (config_json (stdout w k (Basename path))
                    (stdout w m GitRevParse) (stdout w n Date)).

Lemma update_ok (args : list string) (s : Sh) :
  no_help args -> ok (update w args) s (fun _ s' => update_done args s s').
Proof.
  intros Hn. unfold update. apply ok_bind, ok_capture. intros s1 H1.
  pose proof (started_frame Pwd s s1 I H1) as F1.
  apply ok_bind. eapply ok_weaken; [apply update_args_ok; exact Hn|].
  intros path s2 (b & Hparse & Hb).
  apply ok_bind, ok_get. apply ok_guard. intros Hbranch.
  apply ok_framed_bind; [apply framed_test_d|]. intros isdir s3 F3.
  apply ok_guard. intros _.
  apply ok_framed_bind; [apply framed_print_info|]. intros ? s4 F4.
  apply ok_bind, ok_simple.
  eapply ok_weaken; [apply download_project_ok|].
  intros ? s5 (H5a & H5b & H5c & m & H5d).
  apply ok_framed_bind;
    [apply framed_simple, framed_sync_walle_files|]. intros ? s6 F6.
  apply ok_bind, ok_subst. intros s7 H7.
  pose proof (started_frame (Basename path) s6 s7 I H7) as F7.
  apply ok_bind, ok_get. apply ok_bind, ok_simple.
  eapply ok_weaken; [apply create_config_file_ok|].
  intros ? s8 (H8a & H8b & n & H8c).
  eapply ok_weaken; [apply framed_print_info|]. intros ? s9 F9.
  unfold update_done, frame, branch_set in *. cbn [default] in H8c.
  split; [intuition congruence|]. split; [intuition congruence|].
  exists (asked s), b, path, (asked s6), m, n.
  split; [|split].
  - destruct F1 as (_ & _ & <- & _). exact Hparse.
  - unfold is_empty in Hbranch. apply bool_decide_eq_false in Hbranch.
    destruct Hb as (_ & _ & _ & _ & <-). exact Hbranch.
  - destruct F9 as (-> & _). rewrite H8c.
    replace (GITHUB_WALLE_VERSION_SHA s7) with (stdout w m GitRevParse)
      by (intuition congruence).
    apply lookup_insert_eq.
Qed.

(** What a finished run of [init] or [update] leaves in the files. *)
Definition run_done (argv : list string) (s' : Sh) : Prop :=
  forall command args,
    main_parse argv EmptyString [] = Some (command, args) ->
    (command = "init" ->
     exists p name dir n,
       init_parse args EmptyString (stdout w p Pwd) = Some (name, dir)
       /\ name <> EmptyString
       /\ files s' !! config_path (dir +:+ "/" +:+ name)
          = Some (config_json name "main" (stdout w n Date)))
    /\ (command = "update" ->
        exists p branch path k m n,
          update_parse args "main" (stdout w p Pwd) = Some (branch, path)
          /\ branch <> EmptyString
          /\ files s' !! config_path path
             = Some (config_json (stdout w k (Basename path))
                       (stdout w m GitRevParse) (stdout w n Date))).

Lemma main_ok (root : string) (argv : list string) (s : Sh) :
  errexit_ignored s = false ->
  GITHUB_WALLE_VERSION_BRANCH s = "main" ->
  ok (main w root argv) s (fun _ s' => run_done argv s').
Proof.
  intros He Hb. unfold main. apply ok_bind.
  eapply ok_weaken; [apply main_args_ok; exact He|].
  intros [command args] s1 [Hparse ->].
  pose proof (main_parse_no_help argv _ _ _ _ Hparse (List.Forall_nil _)) as Hn.
  apply ok_framed_bind; [apply framed_ignoring, framed_exec; exact I|].
  intros c s2 F2. apply ok_guard. intros _.
  apply ok_bind, ok_ignoring.
  destruct (bool_decide (command = "init")) eqn:Hi;
    [|destruct (bool_decide (command = "update")) eqn:Hu].
  - apply bool_decide_eq_true in Hi.
    eapply ok_weaken; [apply init_ok; exact Hn|]. intros c' s3 H3.
    apply ok_guard. intros _. apply ok_bind, ok_get.
    eapply ok_weaken; [apply framed_exec; exact I|]. intros ? s4 F4.
    intros command' args' Hparse'. rewrite Hparse in Hparse'.
    injection Hparse' as <- <-. split.
    + intros _. destruct H3 as (_ & _ & p & name & dir & n & H1 & H2 & H3).
      exists p, name, dir, n. split; [exact H1|]. split; [exact H2|].
      destruct F4 as (-> & _). exact H3.
    + intros Hc. rewrite Hi in Hc. discriminate.
  - apply bool_decide_eq_true in Hu.
    eapply ok_weaken; [apply update_ok; exact Hn|]. intros c' s3 H3.
    apply ok_guard. intros _. apply ok_bind, ok_get.
    eapply ok_weaken; [apply framed_exec; exact I|]. intros ? s4 F4.
    intros command' args' Hparse'. rewrite Hparse in Hparse'.
    injection Hparse' as <- <-. split.
    + intros Hc. rewrite Hu in Hc. discriminate.
    + intros _.
      destruct H3 as (_ & _ & p & br & path & k & m & n & H1 & H2 & H3).
      exists p, br, path, k, m, n. split; [|split; [exact H2|]].
      * cbn in H1. destruct F2 as (_ & _ & HB & _). cbn in HB.
        rewrite HB, Hb in H1. exact H1.
      * destruct F4 as (-> & _). exact H3.
  - apply bool_decide_eq_false in Hi. apply bool_decide_eq_false in Hu.
    eapply ok_weaken with (P := fun _ _ => True).
    { destruct args; [exact I|]. apply ok_exec. intros; exact I. }
    intros c' s3 _. apply ok_guard. intros _. apply ok_bind, ok_get.
    eapply ok_weaken; [apply framed_exec; exact I|]. intros ? s4 F4.
    intros command' args' Hparse'. rewrite Hparse in Hparse'.
    injection Hparse' as <- <-. split; intros; contradiction.
Qed.

Lemma script_ok (argv : list string) :
  ok (script w argv) initial (fun _ s' => run_done argv s').
Proof.
  unfold script. apply ok_framed_bind; [apply framed_capture; exact I|].
  intros path s1 F1.
  apply ok_framed_bind; [apply framed_capture; exact I|]. intros tmp s2 F2.
  apply ok_bind, ok_modify, ok_simple, main_ok.
  - unfold frame in *. cbn in *. intuition congruence.
  - unfold frame in *. cbn in *. intuition congruence.
Qed.

(** A run that ends with status 0 has gone through [init] or [update] to
    the end, and the trap has not touched the files. *)
Lemma run_cli_success (argv : list string) (s : Sh) :
  run_cli w argv = Some (0, s) -> run_done argv s.
Proof.
  unfold run_cli. pose proof (script_ok argv) as Hs. unfold ok in Hs.
  destruct (script w argv initial) as [c s1|c s1|s1]; [| |discriminate].
  - pose proof (framed_catch c (with_errexit_ignored false s1)) as Hc.
    unfold ok in Hc.
    destruct (catch w c (with_errexit_ignored false s1)) as [c' s2|c' s2|s2];
      [| |discriminate].
    + intros [= -> <-]. intros command args Hp.
      destruct Hc as (Hf & _). cbn in Hf. rewrite Hf. exact (Hs command args Hp).
    + intros [= -> <-]. contradiction.
  - pose proof (framed_catch c (with_errexit_ignored false s1)) as Hc.
    unfold ok in Hc.
    destruct (catch w c (with_errexit_ignored false s1)) as [c' s2|c' s2|s2];
      [| |discriminate].
    + intros [= -> <-]. contradiction.
    + intros [= -> <-]. contradiction.
Qed.

End WithWorld.

Lemma append_assoc (a b c : string) : (a +:+ b) +:+ c = a +:+ (b +:+ c).
Proof.
  induction a as [|x a IH]; [reflexivity|].
  change (String x ((a +:+ b) +:+ c) = String x (a +:+ (b +:+ c))).
  f_equal. exact IH.
Qed.

Lemma config_json_object (name version date : string) :
  config_json name version date = config_object name version date.
Proof.
  unfold config_json, config_object, render_object, members, member.
  cbn [fst snd]. rewrite !append_assoc. reflexivity.
Qed.



End CliFacts.

